(** * Greensboro AI chat: the chat orchestrator and its two relay endpoints

    A shallow embedding of
    - [src/app/page.tsx]        the chat component ([GreensboroAIChat]),
    - [src/unnamed/part_000]    the Data Relay route handler ([POST]),
    - [src/unnamed/part_001]    the Prompt Relay route handler ([POST]).

    The handlers are [async] functions.  Each is embedded as a finite tree of
    the effects it performs (reading the clock, awaiting [fetch], queueing a
    React state update) that ends in a returned value or a thrown exception;
    [try]/[catch]/[finally] are combinators on such trees.  The JavaScript
    built-ins the code calls but does not define ([JSON.parse],
    [JSON.stringify], the arithmetic of JSON numbers) are fields of a [Host].
    Calls to [console.log]/[console.error], [e.preventDefault()] and the
    scrolling helpers touch neither the React state nor the network and are
    left out. *)

From Stdlib Require Import String Ascii ZArith List Lia Bool DecimalString.
From Stdlib Require Import DecimalPos DecimalZ.
Import ListNotations.
Local Open Scope string_scope.
Local Open Scope Z_scope.

Set Implicit Arguments.

(** ** JavaScript values *)

(** A value produced by [JSON.parse].  An object is the list of its own
    properties, in insertion order, each key once. *)
#[warnings="-register-all"]
Inductive json (number : Type) : Type :=
| JNull
| JBool (b : bool)
| JNum (n : number)
| JStr (s : string)
| JArr (items : list (json number))
| JObj (fields : list (string * json number)).

Arguments JNull {number}.
Arguments JBool {number} b.
Arguments JStr {number} s.
Arguments JArr {number} items.
Arguments JObj {number} fields.

(** What the JavaScript engine provides.  [number] is the carrier of JSON
    numbers, [num_truthy] is ToBoolean on it and [num_toString] is
    Number::toString; [JSON_parse] answers [None] where [JSON.parse] throws
    a SyntaxError. *)
Class Host : Type := {
  number : Type;
  num_truthy : number -> bool;
  num_toString : number -> string;
  JSON_parse : string -> option (json number);
  JSON_stringify : json number -> string
}.

Inductive exn : Type :=
| TypeError
| SyntaxError
| ReferenceError
| NetworkError
| Error (message : string).

Inductive result (A : Type) : Type :=
| Ok (a : A)
| Raise (e : exn).

Arguments Raise {A} e.

Definition and_then {A B : Type} (r : result A) (f : A -> result B) : result B :=
  match r with
  | Ok a => f a
  | Raise e => Raise e
  end.

Definition string_of_Z (z : Z) : string := NilZero.string_of_int (Z.to_int z).

Definition dquote : string := String (ascii_of_nat 34) EmptyString.

(** [String.prototype.trim]: the characters that ECMAScript counts as white
    space or line terminators, among the code units a [string] of the model
    carries (those below 256). *)
Definition is_whitespace (c : ascii) : bool :=
  let n := nat_of_ascii c in
  ((9 <=? n) && (n <=? 13) || (n =? 32) || (n =? 160))%nat.

Fixpoint trimStart (s : string) : string :=
  match s with
  | EmptyString => EmptyString
  | String c r => if is_whitespace c then trimStart r else s
  end.

Fixpoint trimEnd (s : string) : string :=
  match s with
  | EmptyString => EmptyString
  | String c r =>
      match trimEnd r with
      | EmptyString => if is_whitespace c then EmptyString else String c EmptyString
      | r' => String c r'
      end
  end.

Definition trim (s : string) : string := trimEnd (trimStart s).

(** The specification's "empty or whitespace-only". *)
Fixpoint blank (s : string) : bool :=
  match s with
  | EmptyString => true
  | String c r => is_whitespace c && blank r
  end.

(** ToBoolean on a string. *)
Definition str_truthy (s : string) : bool :=
  match s with EmptyString => false | _ => true end.

Section Values.
Context {host : Host}.

Definition jsonv : Type := json number.

(** A value that may be [undefined], or a number the program computed itself
    (a [length], a literal). *)
Inductive value : Type :=
| VUndefined
| VInt (n : Z)
| VJson (j : jsonv).

Fixpoint lookup (key : string) (fields : list (string * jsonv)) : option jsonv :=
  match fields with
  | [] => None
  | (k, v) :: rest => if String.eqb k key then Some v else lookup key rest
  end.

(** [j.key] for the property names the program reads ([api_url], [apiUrl],
    [data], [price]): none is an index, [length] or a member of a built-in
    prototype, so only an object can answer, and only [null] throws.
    [None] is [undefined]. *)
Definition get (j : jsonv) (key : string) : result (option jsonv) :=
  match j with
  | JNull => Raise TypeError
  | JObj fields => Ok (lookup key fields)
  | _ => Ok None
  end.

(** [d?.length] *)
Definition opt_length (d : option jsonv) : value :=
  match d with
  | None => VUndefined
  | Some JNull => VUndefined
  | Some (JArr items) => VInt (Z.of_nat (List.length items))
  | Some (JStr s) => VInt (Z.of_nat (String.length s))
  | Some (JObj fields) =>
      match lookup "length" fields with
      | Some v => VJson v
      | None => VUndefined
      end
  | Some _ => VUndefined
  end.

(** ToBoolean *)
Definition truthy (j : jsonv) : bool :=
  match j with
  | JNull => false
  | JBool b => b
  | JNum n => num_truthy n
  | JStr s => str_truthy s
  | JArr _ => true
  | JObj _ => true
  end.

(** [v || 0] *)
Definition or_zero (v : value) : value :=
  match v with
  | VUndefined => VInt 0
  | VInt n => if n =? 0 then VInt 0 else VInt n
  | VJson j => if truthy j then VJson j else VInt 0
  end.

(** [d || []] *)
Definition or_empty (d : option jsonv) : jsonv :=
  match d with
  | Some j => if truthy j then j else JArr []
  | None => JArr []
  end.

(** ToString, as a template literal applies it. *)
Fixpoint ToString (j : jsonv) : string :=
  match j with
  | JNull => "null"
  | JBool true => "true"
  | JBool false => "false"
  | JNum n => num_toString n
  | JStr s => s
  | JArr items =>
      (fix join (l : list jsonv) : string :=
         match l with
         | [] => EmptyString
         | x :: rest =>
             let sx := match x with JNull => EmptyString | _ => ToString x end in
             match rest with
             | [] => sx
             | _ => sx ++ "," ++ join rest
             end
         end) items
  | JObj _ => "[object Object]"
  end.

Definition value_ToString (v : value) : string :=
  match v with
  | VUndefined => "undefined"
  | VInt n => string_of_Z n
  | VJson j => ToString j
  end.

(** [v === "lit"] *)
Definition strict_eq_str (v : option jsonv) (lit : string) : bool :=
  match v with
  | Some (JStr s) => String.eqb s lit
  | _ => false
  end.

End Values.

(** ** Effects of an [async] function *)

Section Effects.
Context {host : Host}.

(** The arguments of one [fetch] call: its first argument as the value that
    was passed, then [method], [headers] and [body] of the init object
    ([None]: the init object has no [body]). *)
Record fetch_request : Type := {
  rq_target : value;
  rq_method : string;
  rq_headers : list (string * string);
  rq_body : option string
}.

(** A [Response]: its status and its body text; [None] is a body whose
    reading fails. *)
Record Response : Type := {
  status : Z;
  body_text : option string
}.

(** How the promise returned by [fetch] settles. *)
Inductive fetch_outcome : Type :=
| Rejected
| Responded (response : Response).

(** [response.ok] *)
Definition ok (response : Response) : bool :=
  (200 <=? status response) && (status response <=? 299).

(** The run of an [async] function over a React state [St], up to its
    returned value or thrown exception.  [Now] is [Date.now()] or
    [new Date()], [Await] is [await fetch(...)], [SetState] is a call of a
    state setter with its updater. *)
Inductive proc (St A : Type) : Type :=
| Ret (a : A)
| Throw (e : exn)
| Now (k : Z -> proc St A)
| Await (rq : fetch_request) (k : fetch_outcome -> proc St A)
| SetState (f : St -> St) (k : proc St A).

Arguments Ret {St A} a.
Arguments Throw {St A} e.
Arguments Now {St A} k.
Arguments Await {St A} rq k.
Arguments SetState {St A} f k.

Fixpoint bind {St A B : Type} (p : proc St A) (f : A -> proc St B) : proc St B :=
  match p with
  | Ret a => f a
  | Throw e => Throw e
  | Now k => Now (fun t => bind (k t) f)
  | Await rq k => Await rq (fun o => bind (k o) f)
  | SetState g k => SetState g (bind k f)
  end.

(** [try { p } catch (e) { h e }] *)
Fixpoint try_catch {St A : Type} (p : proc St A) (h : exn -> proc St A) : proc St A :=
  match p with
  | Ret a => Ret a
  | Throw e => h e
  | Now k => Now (fun t => try_catch (k t) h)
  | Await rq k => Await rq (fun o => try_catch (k o) h)
  | SetState g k => SetState g (try_catch k h)
  end.

(** [try { p } finally { fin }], for a [fin] that completes normally. *)
Fixpoint try_finally {St A : Type} (p : proc St A) (fin : proc St unit) : proc St A :=
  match p with
  | Ret a => bind fin (fun _ => Ret a)
  | Throw e => bind fin (fun _ => Throw e)
  | Now k => Now (fun t => try_finally (k t) fin)
  | Await rq k => Await rq (fun o => try_finally (k o) fin)
  | SetState g k => SetState g (try_finally k fin)
  end.

Definition lift {St A : Type} (r : result A) : proc St A :=
  match r with
  | Ok a => Ret a
  | Raise e => Throw e
  end.

Definition now {St : Type} : proc St Z := Now (fun t => Ret t).

Definition setState {St : Type} (f : St -> St) : proc St unit := SetState f (Ret tt).

(** [await fetch(target, { method, headers, body })] *)
Definition fetch {St : Type} (rq : fetch_request) : proc St Response :=
  Await rq (fun o =>
    match o with
    | Rejected => Throw NetworkError
    | Responded response => Ret response
    end).

(** [await response.text()] *)
Definition text {St : Type} (response : Response) : proc St string :=
  match body_text response with
  | Some t => Ret t
  | None => Throw NetworkError
  end.

(** [JSON.parse(t)] *)
Definition parse (t : string) : result jsonv :=
  match JSON_parse t with
  | Some j => Ok j
  | None => Raise SyntaxError
  end.

(** [await response.json()], also [await request.json()] on the body text
    of an incoming request. *)
Definition json_of_text {St : Type} (body : option string) : proc St jsonv :=
  match body with
  | Some t => lift (parse t)
  | None => Throw NetworkError
  end.

Definition content_type_json : list (string * string) :=
  [("Content-Type", "application/json")].

(** *** Running a tree against the world *)

(** The world answers the [n]-th clock reading and settles the [n]-th
    [fetch] of a run. *)
Record world : Type := {
  clock : nat -> Z;
  network : nat -> fetch_request -> fetch_outcome
}.

(** What a run leaves behind: how the function ended, the state after its
    last update, the [fetch] calls it issued, oldest first, each with the
    state it was issued in, and the number of clock readings it made. *)
Record trace (St A : Type) : Type := {
  outcome : result A;
  final : St;
  calls : list (fetch_request * St);
  ticks : nat
}.

(** [run w p tick call s]: the run of [p] from state [s], when [tick] clock
    readings and [call] fetches precede it. *)
Fixpoint run {St A : Type} (w : world) (p : proc St A) (tick call : nat) (s : St)
  : trace St A :=
  match p with
  | Ret a => {| outcome := Ok a; final := s; calls := []; ticks := 0 |}
  | Throw e => {| outcome := Raise e; final := s; calls := []; ticks := 0 |}
  | Now k =>
      let t := run w (k (clock w tick)) (S tick) call s in
      {| outcome := outcome t; final := final t; calls := calls t;
         ticks := S (ticks t) |}
  | Await rq k =>
      let t := run w (k (network w call rq)) tick (S call) s in
      {| outcome := outcome t; final := final t; calls := (rq, s) :: calls t;
         ticks := ticks t |}
  | SetState f k => run w k tick call (f s)
  end.

(** The trace of a run [t] that follows the run [pre]. *)
Definition after {St A B : Type} (pre : trace St A) (t : trace St B) : trace St B :=
  {| outcome := outcome t;
     final := final t;
     calls := (calls pre ++ calls t)%list;
     ticks := (ticks pre + ticks t)%nat |}.

(** The trace [t] with another outcome. *)
Definition ending {St A B : Type} (t : trace St A) (r : result B) : trace St B :=
  {| outcome := r; final := final t; calls := calls t; ticks := ticks t |}.

End Effects.

Arguments Ret {host St A} a.
Arguments Throw {host St A} e.
Arguments Now {host St A} k.
Arguments Await {host St A} rq k.
Arguments SetState {host St A} f k.

Declare Scope proc_scope.
Delimit Scope proc_scope with proc.
Notation "x <- p ;; q" := (bind p (fun x => q))
  (at level 61, p at next level, right associativity) : proc_scope.
Notation "p ;; q" := (bind p (fun _ => q))
  (at level 61, right associativity) : proc_scope.

Local Open Scope proc_scope.

(** ** The relay route handlers *)

Section Next.
Context {host : Host}.

(** An incoming [NextRequest]; the handlers read its body only. *)
Record NextRequest : Type := {
  req_url : string;
  req_headers : list (string * string);
  req_body : string
}.

(** The response built by [NextResponse.json(body, { status })]. *)
Record NextResponse : Type := {
  res_status : Z;
  res_body : jsonv
}.

Definition NextResponse_json (body : jsonv) (st : Z) : NextResponse :=
  {| res_status := st; res_body := body |}.

(** [await request.json()] *)
Definition request_json {St : Type} (request : NextRequest) : proc St jsonv :=
  json_of_text (Some (req_body request)).

(** [{ error: message }] *)
Definition error_body (message : string) : jsonv :=
  JObj [("error", JStr message)].

(** The failure envelope: [{ error: ... }] with status 500. *)
Definition is_failure (response : NextResponse) : Prop :=
  res_status response = 500 /\
  exists message, res_body response = error_body message.

(** A relay handler keeps no state. *)
Definition serve (w : world) (handler : proc unit NextResponse) : trace unit NextResponse :=
  run w handler 0 0 tt.

End Next.

(** [src/unnamed/part_000] *)
Module DataRelay.
Section Handler.
Context {host : Host}.

(** The call [fetch(apiUrl, { method: "POST", headers: {...} })]. *)
Definition forwarded (apiUrl : option jsonv) : fetch_request :=
  {| rq_target := match apiUrl with Some j => VJson j | None => VUndefined end;
     rq_method := "POST";
     rq_headers := content_type_json;
     rq_body := None |}.

(** [const { apiUrl } = await request.json()], as far as it depends on the
    request. *)
Definition requested (request : NextRequest) : result (option jsonv) :=
  and_then (parse (req_body request)) (fun body => get body "apiUrl").

Definition POST (request : NextRequest) : proc unit NextResponse :=
  try_catch
    (body <- request_json request ;;
     apiUrl <- lift (get body "apiUrl") ;;
     response <- fetch (forwarded apiUrl) ;;
     if negb (ok response)
     then Throw (Error ("Data API failed: " ++ string_of_Z (status response)))
     else
       data <- json_of_text (body_text response) ;;
       Ret (NextResponse_json data 200))
    (fun error =>
       Ret (NextResponse_json (error_body "Failed to fetch data API") 500)).

End Handler.
End DataRelay.

(** [src/unnamed/part_001] *)
Module PromptRelay.
Section Handler.
Context {host : Host}.

Definition upstream : string := "http://3.95.246.95:5000/params".

(** The call [fetch(upstream, { method, headers, body: JSON.stringify(body) })]. *)
Definition forwarded (body : jsonv) : fetch_request :=
  {| rq_target := VJson (JStr upstream);
     rq_method := "POST";
     rq_headers := content_type_json;
     rq_body := Some (JSON_stringify body) |}.

Definition POST (request : NextRequest) : proc unit NextResponse :=
  try_catch
    (body <- request_json request ;;
     response <- fetch (forwarded body) ;;
     if negb (ok response)
     then Throw (Error ("Prompt API failed: " ++ string_of_Z (status response)))
     else
       responseText <- text response ;;
       try_catch
         (data <- lift (parse responseText) ;;
          Ret (NextResponse_json data 200))
         (fun jsonError =>
            Ret (NextResponse_json
                   (error_body ("API returned non-JSON response: " ++ responseText))
                   500)))
    (fun error =>
       Ret (NextResponse_json (error_body "Failed to fetch prompt API") 500)).

End Handler.
End PromptRelay.

(** ** The chat component, [src/app/page.tsx] *)

Module GreensboroAIChat.
Section Component.
Context {host : Host}.

Inductive MessageType : Type := user | assistant | results.

(** [interface ChatMessage]; [timestamp] is the [Date] in milliseconds and
    [data = None] is a message without the optional [data]. *)
Record ChatMessage : Type := {
  id : string;
  type : MessageType;
  content : string;
  timestamp : Z;
  data : option jsonv
}.

(** The [useState] cells of the component; [selectedItem = None] is [null]. *)
Record state : Type := {
  showWelcome : bool;
  selectedItem : option jsonv;
  messages : list ChatMessage;
  input : string;
  isLoading : bool
}.

Definition initial : state :=
  {| showWelcome := true;
     selectedItem := None;
     messages := [];
     input := EmptyString;
     isLoading := false |}.

Definition setShowWelcome (b : bool) (s : state) : state :=
  {| showWelcome := b;
     selectedItem := selectedItem s;
     messages := messages s;
     input := input s;
     isLoading := isLoading s |}.

Definition setSelectedItem (v : option jsonv) (s : state) : state :=
  {| showWelcome := showWelcome s;
     selectedItem := v;
     messages := messages s;
     input := input s;
     isLoading := isLoading s |}.

(** [setMessages(updater)]; a constant updater is [setMessages(value)]. *)
Definition setMessages (updater : list ChatMessage -> list ChatMessage) (s : state) : state :=
  {| showWelcome := showWelcome s;
     selectedItem := selectedItem s;
     messages := updater (messages s);
     input := input s;
     isLoading := isLoading s |}.

Definition setInput (v : string) (s : state) : state :=
  {| showWelcome := showWelcome s;
     selectedItem := selectedItem s;
     messages := messages s;
     input := v;
     isLoading := isLoading s |}.

Definition setIsLoading (b : bool) (s : state) : state :=
  {| showWelcome := showWelcome s;
     selectedItem := selectedItem s;
     messages := messages s;
     input := input s;
     isLoading := b |}.

Definition welcome_text : string :=
  "Welcome to your intelligent guide to Greensboro! I'm here to help you discover amazing events, attractions, dining, and experiences throughout the Gate City. What would you like to explore today?".

Definition error_text : string :=
  "I encountered an error while searching. Please try again or check your connection.".

Definition handleGetStarted : proc state unit :=
  setState (setShowWelcome false) ;;
  t <- now ;;
  let welcomeMessage :=
    {| id := "1"; type := assistant; content := welcome_text;
       timestamp := t; data := None |} in
  setState (setMessages (fun _ => [welcomeMessage])).

Definition prompt_request (question : string) : fetch_request :=
  {| rq_target := VJson (JStr "/api/prompt");
     rq_method := "POST";
     rq_headers := content_type_json;
     rq_body := Some (JSON_stringify (JObj [("question", JStr question)])) |}.

Definition callPromptAPI (question : string) : proc state jsonv :=
  response <- fetch (prompt_request question) ;;
  if negb (ok response)
  then Throw (Error ("Prompt API failed: " ++ string_of_Z (status response)))
  else json_of_text (body_text response).

(** [JSON.stringify] leaves out a property whose value is [undefined]. *)
Definition data_request (apiUrl : option jsonv) : fetch_request :=
  {| rq_target := VJson (JStr "/api/data");
     rq_method := "POST";
     rq_headers := content_type_json;
     rq_body := Some (JSON_stringify
                        (JObj match apiUrl with
                              | Some u => [("apiUrl", u)]
                              | None => []
                              end)) |}.

Definition callDataAPI (apiUrl : option jsonv) : proc state jsonv :=
  response <- fetch (data_request apiUrl) ;;
  if negb (ok response)
  then Throw (Error ("Data API failed: " ++ string_of_Z (status response)))
  else json_of_text (body_text response).

Definition summary_text (count : value) (currentInput : string) : string :=
  "I found " ++ value_ToString count ++ " great results for " ++ dquote
    ++ currentInput ++ dquote ++ ". Here's what I discovered:".

(** The [try] block of [handleSubmit] (lines 197-218). *)
Definition handleSubmit_try (currentInput : string) : proc state unit :=
  apiResponse <- callPromptAPI currentInput ;;
  api_url <- lift (get apiResponse "api_url") ;;
  dataResponse <- callDataAPI api_url ;;
  t3 <- now ;;
  d <- lift (get dataResponse "data") ;;
  t4 <- now ;;
  let assistantMessage :=
    {| id := string_of_Z (t3 + 1); type := assistant;
       content := summary_text (or_zero (opt_length d)) currentInput;
       timestamp := t4; data := None |} in
  t5 <- now ;;
  t6 <- now ;;
  d' <- lift (get dataResponse "data") ;;
  let resultsMessage :=
    {| id := string_of_Z (t5 + 2); type := results;
       content := EmptyString;
       timestamp := t6; data := Some (or_empty d') |} in
  setState (setMessages (fun prev => (prev ++ [assistantMessage; resultsMessage])%list)).

(** The [catch] block of [handleSubmit] (lines 219-228). *)
Definition handleSubmit_catch (error : exn) : proc state unit :=
  t7 <- now ;;
  t8 <- now ;;
  let errorMessage :=
    {| id := string_of_Z (t7 + 1); type := assistant;
       content := error_text;
       timestamp := t8; data := None |} in
  setState (setMessages (fun prev => (prev ++ [errorMessage])%list)).

(** [handleSubmit] as the render that saw the state [s] defines it: [input]
    and [isLoading] are the values of that render. *)
Definition handleSubmit (s : state) : proc state unit :=
  if negb (str_truthy (trim (input s))) || isLoading s then Ret tt
  else
    t1 <- now ;;
    t2 <- now ;;
    let userMessage :=
      {| id := string_of_Z t1; type := user; content := input s;
         timestamp := t2; data := None |} in
    setState (setMessages (fun prev => (prev ++ [userMessage])%list)) ;;
    let currentInput := input s in
    setState (setInput EmptyString) ;;
    setState (setIsLoading true) ;;
    try_finally
      (try_catch (handleSubmit_try currentInput) handleSubmit_catch)
      (setState (setIsLoading false)).

(** *** One submission against the world *)

(** In a submission the first [fetch] is the Prompt Relay call and the
    second the Data Relay call; what the two calls give back does not depend
    on the state or on the clock. *)
Definition prompt_result (w : world) (question : string) : result jsonv :=
  outcome (run w (callPromptAPI question) 0 0 initial).

Definition data_result (w : world) (apiUrl : option jsonv) : result jsonv :=
  outcome (run w (callDataAPI apiUrl) 0 1 initial).

Definition userMessage (w : world) (s : state) : ChatMessage :=
  {| id := string_of_Z (clock w 0); type := user; content := input s;
     timestamp := clock w 1; data := None |}.

(** The state once the synchronous part of [handleSubmit] is through. *)
Definition submitted (w : world) (s : state) : state :=
  setIsLoading true
    (setInput EmptyString
       (setMessages (fun prev => (prev ++ [userMessage w s])%list) s)).

(** The generic error message: written by the assistant, no [data]. *)
Definition is_error_message (m : ChatMessage) : Prop :=
  type m = assistant /\ content m = error_text /\ data m = None.

(** The summary and results messages for the answer's [data] value [d]. *)
Definition is_summary_message (q : string) (d : option jsonv) (m : ChatMessage) : Prop :=
  type m = assistant /\
  content m = summary_text (or_zero (opt_length d)) q /\
  data m = None.

Definition is_results_message (d : option jsonv) (m : ChatMessage) : Prop :=
  type m = results /\ content m = EmptyString /\ data m = Some (or_empty d).

(** Both relay calls resolve and the component can read what they returned;
    [d] is the [data] property of the Data Relay's answer. *)
Inductive answered (w : world) (q : string) (d : option jsonv) : Prop :=
| answered_both (apiResponse dataResponse : jsonv) (api_url : option jsonv) :
    prompt_result w q = Ok apiResponse ->
    get apiResponse "api_url" = Ok api_url ->
    data_result w api_url = Ok dataResponse ->
    get dataResponse "data" = Ok d ->
    answered w q d.

(** A relay call fails, or resolves with the JSON value [null]. *)
Inductive unanswered (w : world) (q : string) : Prop :=
| prompt_call_fails (e : exn) :
    prompt_result w q = Raise e ->
    unanswered w q
| prompt_body_null :
    prompt_result w q = Ok JNull ->
    unanswered w q
| data_call_fails (apiResponse : jsonv) (api_url : option jsonv) (e : exn) :
    prompt_result w q = Ok apiResponse ->
    get apiResponse "api_url" = Ok api_url ->
    data_result w api_url = Raise e ->
    unanswered w q
| data_body_null (apiResponse : jsonv) (api_url : option jsonv) :
    prompt_result w q = Ok apiResponse ->
    get apiResponse "api_url" = Ok api_url ->
    data_result w api_url = Ok JNull ->
    unanswered w q.

(** What [catch] and [finally] make of the trace of the [try] block, when
    two clock readings precede the block. *)
Definition settle (w : world) (t : trace state unit) : trace state unit :=
  match outcome t with
  | Ok _ =>
      {| outcome := Ok tt; final := setIsLoading false (final t);
         calls := calls t; ticks := ticks t |}
  | Raise _ =>
      let errorMessage :=
        {| id := string_of_Z (clock w (2 + ticks t) + 1); type := assistant;
           content := error_text; timestamp := clock w (3 + ticks t);
           data := None |} in
      {| outcome := Ok tt;
         final := setIsLoading false
                    (setMessages (fun prev => (prev ++ [errorMessage])%list) (final t));
         calls := calls t; ticks := (2 + ticks t)%nat |}
  end.

(** *** The price shown for an item *)

(** An identifier of the JSX expression, looked up among the bindings in
    scope where the expression stands. *)
Definition resolve (scope : list (string * jsonv)) (name : string) : result jsonv :=
  match lookup name scope with
  | Some v => Ok v
  | None => Raise ReferenceError
  end.

(** [a.price === "0" || b.price === "free" ? "Free" : c.price] for three
    identifiers [a], [b], [c]; the result is the child React renders
    ([None]: [undefined], nothing is rendered). *)
Definition price_expr (scope : list (string * jsonv)) (a b c : string)
  : result (option jsonv) :=
  and_then (resolve scope a) (fun va =>
  and_then (get va "price") (fun pa =>
  if strict_eq_str pa "0" then Ok (Some (JStr "Free"))
  else
    and_then (resolve scope b) (fun vb =>
    and_then (get vb "price") (fun pb =>
    if strict_eq_str pb "free" then Ok (Some (JStr "Free"))
    else
      and_then (resolve scope c) (fun vc => get vc "price"))))).

(** The result card (lines 508-510), inside
    [message.data?.map((item, index) => ...)]. *)
Definition cardPrice (item : jsonv) : result (option jsonv) :=
  price_expr [("item", item)] "item" "item" "item".

(** The detail dialog (lines 727-729), inside [{selectedItem && (...)}]: the
    callback parameter [item] of the card grid is not in scope here. *)
Definition detailPrice (selected : jsonv) : result (option jsonv) :=
  price_expr [("selectedItem", selected)] "selectedItem" "item" "selectedItem".

(** *** Selection *)

(** [onClick={() => setSelectedItem(item)}] *)
Definition select (item : jsonv) : state -> state := setSelectedItem (Some item).

(** [onOpenChange={() => setSelectedItem(null)}] *)
Definition deselect : state -> state := setSelectedItem None.

(** The items the state holds as selected. *)
Definition selection (s : state) : list jsonv :=
  match selectedItem s with
  | Some item => [item]
  | None => []
  end.

(** An item that has a card on screen: an element of the [data] array of a
    message rendered by the results branch. *)
Definition has_card (s : state) (item : jsonv) : Prop :=
  exists m items,
    In m (messages s) /\ type m = results /\
    data m = Some (JArr items) /\ In item items.

(** *** The component as a transition system *)

(** A handler suspended at an [await fetch]: the call and what follows it. *)
Definition task : Type := (fetch_request * (fetch_outcome -> proc state unit))%type.

Record config : Type := {
  ui : state;
  inflight : list task
}.

Definition start : config := {| ui := initial; inflight := [] |}.

(** Runs [p] up to its first [await fetch] or its end; [tm] gives the clock
    readings on the way. *)
Fixpoint advance (tm : nat -> Z) (p : proc state unit) (tick : nat) (s : state)
  : state * option task :=
  match p with
  | Ret _ => (s, None)
  | Throw _ => (s, None)
  | Now k => advance tm (k (tm tick)) (S tick) s
  | Await rq k => (s, Some (rq, k))
  | SetState f k => advance tm k tick (f s)
  end.

Definition launch (tm : nat -> Z) (p : proc state unit) (c : config) : config :=
  let (s', suspended) := advance tm p 0 (ui c) in
  {| ui := s';
     inflight := match suspended with
                 | Some t => t :: inflight c
                 | None => inflight c
                 end |}.

(** One event of the page.  The welcome screen shows only the
    "Get Started" button; the chat screen shows the form, the cards and the
    dialog, and disables the input field and the quick-action buttons while
    [isLoading]. *)
Inductive step : config -> config -> Prop :=
| step_getStarted c tm :
    showWelcome (ui c) = true ->
    step c (launch tm handleGetStarted c)
| step_submit c tm :
    showWelcome (ui c) = false ->
    step c (launch tm (handleSubmit (ui c)) c)
| step_settle c before rq k after o tm :
    inflight c = (before ++ (rq, k) :: after)%list ->
    step c (launch tm (k o) {| ui := ui c; inflight := (before ++ after)%list |})
| step_select c item :
    showWelcome (ui c) = false ->
    has_card (ui c) item ->
    step c {| ui := select item (ui c); inflight := inflight c |}
| step_deselect c :
    showWelcome (ui c) = false ->
    step c {| ui := deselect (ui c); inflight := inflight c |}
| step_setInput c v :
    showWelcome (ui c) = false ->
    isLoading (ui c) = false ->
    step c {| ui := setInput v (ui c); inflight := inflight c |}.

Inductive reachable : config -> Prop :=
| reachable_start : reachable start
| reachable_step c c' : reachable c -> step c c' -> reachable c'.

(** An update that keeps the chat screen and only adds messages at the end. *)
Definition extends_transcript (f : state -> state) : Prop :=
  forall s, showWelcome s = false ->
    showWelcome (f s) = false /\
    exists tail, messages (f s) = (messages s ++ tail)%list.

(** A tree all of whose updates are such. *)
Inductive appending {A : Type} : proc state A -> Prop :=
| appending_Ret a : appending (Ret a)
| appending_Throw e : appending (Throw e)
| appending_Now k : (forall t, appending (k t)) -> appending (Now k)
| appending_Await rq k : (forall o, appending (k o)) -> appending (Await rq k)
| appending_SetState f k :
    extends_transcript f -> appending k -> appending (SetState f k).

(** What holds of every configuration the page can be in. *)
Definition invariant (c : config) : Prop :=
  (showWelcome (ui c) = true -> messages (ui c) = [] /\ inflight c = []) /\
  Forall (fun t : task => forall o, appending (snd t o)) (inflight c).

End Component.
End GreensboroAIChat.

(** ** A host for the examples

    JSON restricted to integers and to strings that hold no quote, backslash
    or control character.  The examples below run the handlers on it; the
    theorems hold for every host. *)

Module Sample.

Definition is_json_space (c : ascii) : bool :=
  let n := nat_of_ascii c in
  ((n =? 32) || (n =? 9) || (n =? 10) || (n =? 13))%nat.

Fixpoint skip_ws (s : string) : string :=
  match s with
  | String c r => if is_json_space c then skip_ws r else s
  | EmptyString => EmptyString
  end.

Definition digit (c : ascii) : option Z :=
  let n := nat_of_ascii c in
  if ((48 <=? n) && (n <=? 57))%nat then Some (Z.of_nat (n - 48)) else None.

Fixpoint read_digits (acc : Z) (s : string) : Z * string :=
  match s with
  | String c r =>
      match digit c with
      | Some d => read_digits (10 * acc + d) r
      | None => (acc, s)
      end
  | EmptyString => (acc, s)
  end.

(** An integer without leading zeros; a fraction or an exponent after it is
    left in the rest and makes the text fail. *)
Definition read_int (s : string) : option (Z * string) :=
  match s with
  | String c r =>
      match digit c with
      | Some 0 => Some (0, r)
      | Some d => Some (read_digits d r)
      | None => None
      end
  | EmptyString => None
  end.

(** The characters up to the closing quote. *)
Fixpoint read_string (s : string) : option (string * string) :=
  match s with
  | EmptyString => None
  | String c r =>
      let n := nat_of_ascii c in
      if (n =? 34)%nat then Some (EmptyString, r)
      else if ((n =? 92) || (n <? 32))%nat then None
      else match read_string r with
           | Some (str, r') => Some (String c str, r')
           | None => None
           end
  end.

(** A repeated key keeps its place and takes the later value. *)
Fixpoint put (k : string) (v : json Z) (fields : list (string * json Z))
  : list (string * json Z) :=
  match fields with
  | [] => [(k, v)]
  | (k', v') :: rest =>
      if String.eqb k' k then (k', v) :: rest else (k', v') :: put k v rest
  end.

Fixpoint parse_value (fuel : nat) (s : string) {struct fuel}
  : option (json Z * string) :=
  match fuel with
  | O => None
  | S fuel' =>
      match skip_ws s with
      | String "n" (String "u" (String "l" (String "l" r))) => Some (JNull, r)
      | String "t" (String "r" (String "u" (String "e" r))) => Some (JBool true, r)
      | String "f" (String "a" (String "l" (String "s" (String "e" r)))) =>
          Some (JBool false, r)
      | String "[" r =>
          match skip_ws r with
          | String "]" r' => Some (JArr [], r')
          | _ =>
              match parse_elements fuel' r with
              | Some (items, r') => Some (JArr items, r')
              | None => None
              end
          end
      | String "{" r =>
          match skip_ws r with
          | String "}" r' => Some (JObj [], r')
          | _ =>
              match parse_members fuel' [] r with
              | Some (fields, r') => Some (JObj fields, r')
              | None => None
              end
          end
      | String "-" r =>
          match read_int r with
          | Some (z, r') => Some (JNum (- z), r')
          | None => None
          end
      | String c r =>
          if (nat_of_ascii c =? 34)%nat then
            match read_string r with
            | Some (str, r') => Some (JStr str, r')
            | None => None
            end
          else
            match read_int (String c r) with
            | Some (z, r') => Some (JNum z, r')
            | None => None
            end
      | EmptyString => None
      end
  end
with parse_elements (fuel : nat) (s : string) {struct fuel}
  : option (list (json Z) * string) :=
  match fuel with
  | O => None
  | S fuel' =>
      match parse_value fuel' s with
      | Some (v, r) =>
          match skip_ws r with
          | String "," r' =>
              match parse_elements fuel' r' with
              | Some (vs, r'') => Some (v :: vs, r'')
              | None => None
              end
          | String "]" r' => Some ([v], r')
          | _ => None
          end
      | None => None
      end
  end
with parse_members (fuel : nat) (acc : list (string * json Z)) (s : string) {struct fuel}
  : option (list (string * json Z) * string) :=
  match fuel with
  | O => None
  | S fuel' =>
      match skip_ws s with
      | String c r =>
          if (nat_of_ascii c =? 34)%nat then
            match read_string r with
            | Some (k, r') =>
                match skip_ws r' with
                | String ":" r'' =>
                    match parse_value fuel' r'' with
                    | Some (v, r3) =>
                        match skip_ws r3 with
                        | String "," r4 => parse_members fuel' (put k v acc) r4
                        | String "}" r4 => Some (put k v acc, r4)
                        | _ => None
                        end
                    | None => None
                    end
                | _ => None
                end
            | None => None
            end
          else None
      | EmptyString => None
      end
  end.

Definition parse_text (t : string) : option (json Z) :=
  match parse_value (2 * String.length t + 2) t with
  | Some (v, r) =>
      match skip_ws r with
      | EmptyString => Some v
      | _ => None
      end
  | None => None
  end.

Definition quoted (s : string) : string := dquote ++ s ++ dquote.

Fixpoint stringify (j : json Z) : string :=
  match j with
  | JNull => "null"
  | JBool true => "true"
  | JBool false => "false"
  | JNum z => string_of_Z z
  | JStr s => quoted s
  | JArr items =>
      "[" ++ (fix elements (l : list (json Z)) : string :=
                match l with
                | [] => EmptyString
                | [x] => stringify x
                | x :: rest => stringify x ++ "," ++ elements rest
                end) items ++ "]"
  | JObj fields =>
      "{" ++ (fix members (l : list (string * json Z)) : string :=
                match l with
                | [] => EmptyString
                | [(k, v)] => quoted k ++ ":" ++ stringify v
                | (k, v) :: rest => quoted k ++ ":" ++ stringify v ++ "," ++ members rest
                end) fields ++ "}"
  end.

Definition host : Host :=
  {| number := Z;
     num_truthy := fun z => negb (z =? 0);
     num_toString := string_of_Z;
     JSON_parse := parse_text;
     JSON_stringify := stringify |}.

End Sample.

(** ** Worlds for the examples *)

Module Examples.
Import GreensboroAIChat.

#[local] Existing Instance Sample.host.

Definition respond (st : Z) (body : string) : fetch_outcome :=
  Responded {| status := st; body_text := Some body |}.

(** The clock advances one millisecond per reading; the [n]-th fetch is
    settled by the [n]-th answer, and rejected when there is none. *)
Definition world_of (answers : list fetch_outcome) : world :=
  {| clock := fun n => 1700000000000 + Z.of_nat n;
     network := fun n _ => nth n answers Rejected |}.

Definition descriptor_text : string :=
  "{" ++ Sample.quoted "api_url" ++ ":" ++ Sample.quoted "http://data.example/events"
      ++ "," ++ Sample.quoted "intent" ++ ":" ++ Sample.quoted "events" ++ "}".

Definition descriptor : jsonv :=
  JObj [("api_url", JStr "http://data.example/events"); ("intent", JStr "events")].

Definition concert : jsonv :=
  JObj [("id", JStr "7"); ("title", JStr "Jazz night"); ("price", JStr "free")].

Definition market : jsonv :=
  JObj [("id", JStr "9"); ("title", JStr "Farmers market"); ("price", JStr "0")].

Definition records_text : string :=
  "{" ++ Sample.quoted "data" ++ ":[" ++ Sample.stringify concert ++ ","
      ++ Sample.stringify market ++ "]}".

(** The chat screen with [q] typed into the input field. *)
Definition asking (q : string) : state :=
  {| showWelcome := false; selectedItem := None; messages := [];
     input := q; isLoading := false |}.

Definition blank_input : state := asking "  ".

Definition jazz : state := asking "jazz".

Definition events_url : option jsonv := Some (JStr "http://data.example/events").

(** Both relays answer. *)
Definition fine : world :=
  world_of [respond 200 descriptor_text; respond 200 records_text].

(** The Prompt Relay is unavailable. *)
Definition prompt_down : world :=
  world_of [respond 503 "Service Unavailable"].


(** The upstream of the Prompt Relay answers 200 with a page of HTML. *)
Definition garbage : world :=
  world_of [respond 200 "<html>"].

Definition question_request : NextRequest :=
  {| req_url := "/api/prompt";
     req_headers := content_type_json;
     req_body := "{" ++ Sample.quoted "question" ++ ":" ++ Sample.quoted "jazz" ++ "}" |}.

(** Two requests to the Data Relay for one [apiUrl]. *)
Definition verbose_request : NextRequest :=
  {| req_url := "/api/data?debug=1";
     req_headers := [("Content-Type", "application/json"); ("Cookie", "session=42")];
     req_body := "{" ++ Sample.quoted "apiUrl" ++ ":"
                     ++ Sample.quoted "http://data.example/events" ++ ","
                     ++ Sample.quoted "user" ++ ":" ++ Sample.quoted "alice" ++ "}" |}.

Definition plain_request : NextRequest :=
  {| req_url := "/api/data";
     req_headers := content_type_json;
     req_body := "{" ++ Sample.quoted "apiUrl" ++ ":"
                     ++ Sample.quoted "http://data.example/events" ++ "}" |}.

End Examples.

(** ** The tags of an item, [src/app/page.tsx] *)

Module Tags.
Section Badges.
Context {host : Host}.

(** [items.map(f)] for a callback that may throw: the results in order, or
    the first exception. *)
Fixpoint each {A B : Type} (f : A -> result B) (items : list A) : result (list B) :=
  match items with
  | [] => Ok []
  | x :: rest =>
      and_then (f x) (fun y =>
      and_then (each f rest) (fun ys => Ok (y :: ys)))
  end.

(** [v?.slice(0, 2).map((x, idx) => <Badge>{x.name}</Badge>)]: the labels of
    the badges, in order.  [undefined] and [null] stop the chain and nothing
    is rendered; an array is cut to its first two elements; a string has
    [slice] but its result has no [map], and the other values have no
    [slice] that can be called, so the call throws.  The property names read
    here ([eventItemCategories], [attractionTypes], [category_name],
    [attraction_type]) are plain names as those of [get]. *)
Definition first_two (v : option jsonv) (name : string) : result (list (option jsonv)) :=
  match v with
  | None => Ok []
  | Some JNull => Ok []
  | Some (JArr items) => each (fun x => get x name) (firstn 2 items)
  | Some _ => Raise TypeError
  end.

(** [v?.map((x, idx) => <Badge>{x.name}</Badge>)] *)
Definition all_of (v : option jsonv) (name : string) : result (list (option jsonv)) :=
  match v with
  | None => Ok []
  | Some JNull => Ok []
  | Some (JArr items) => each (fun x => get x name) items
  | Some _ => Raise TypeError
  end.

(** The badges of a result card (lines 515-538): category badges, then
    attraction-type badges. *)
Definition cardTags (item : jsonv)
  : result (list (option jsonv) * list (option jsonv)) :=
  and_then (get item "eventItemCategories") (fun categories =>
  and_then (first_two categories "category_name") (fun cs =>
  and_then (get item "attractionTypes") (fun types =>
  and_then (first_two types "attraction_type") (fun ts =>
  Ok (cs, ts))))).

(** The badges of the detail dialog (lines 734-753).  The render of the
    dialog evaluates the price expression of lines 727-729 before it comes
    to the badges, so there are badges only where that expression does not
    throw; the expressions before it read properties of the selected item
    and throw for no item that is not [null]. *)
Definition detailTags (selected : jsonv)
  : result (list (option jsonv) * list (option jsonv)) :=
  and_then (GreensboroAIChat.detailPrice selected) (fun _ =>
  and_then (get selected "eventItemCategories") (fun categories =>
  and_then (all_of categories "category_name") (fun cs =>
  and_then (get selected "attractionTypes") (fun types =>
  and_then (all_of types "attraction_type") (fun ts =>
  Ok (cs, ts)))))).

End Badges.
End Tags.

(** ** Controls and images of the page, [src/app/page.tsx] *)

Module Controls.
Section Attributes.
Context {host : Host}.
Import GreensboroAIChat.

(** [disabled={!input.trim() || isLoading}] on the submit button
    (line 629). *)
Definition submitDisabled (s : state) : bool :=
  negb (str_truthy (trim (input s))) || isLoading s.

(** [src={item.listing_image || "/placeholder.svg"}] on the image of a card
    (line 464) and of the dialog (line 655). *)
Definition imageSrc (item : jsonv) : result jsonv :=
  and_then (get item "listing_image") (fun image =>
  Ok match image with
     | Some j => if truthy j then j else JStr "/placeholder.svg"
     | None => JStr "/placeholder.svg"
     end).

End Attributes.
End Controls.

(** ** The page and its relays together *)

Module App.
Section Deployment.
Context {host : Host}.

(** The request a route handler receives for a [fetch] of the page. *)
Definition incoming (rq : fetch_request) : NextRequest :=
  {| req_url := match rq_target rq with
                | VJson (JStr path) => path
                | _ => EmptyString
                end;
     req_headers := rq_headers rq;
     req_body := match rq_body rq with
                 | Some b => b
                 | None => EmptyString
                 end |}.

(** What the page's [fetch] resolves with for the handler's answer:
    [NextResponse.json] sends the status and the body as [JSON.stringify]
    writes it; a handler that throws makes the framework answer 500. *)
Definition deliver (answer : result NextResponse) : fetch_outcome :=
  match answer with
  | Ok response =>
      Responded {| status := res_status response;
                   body_text := Some (JSON_stringify (res_body response)) |}
  | Raise _ => Responded {| status := 500; body_text := Some EmptyString |}
  end.

(** The routes the page addresses: [/api/prompt] is the handler whose log
    lines say "Prompt API" and [/api/data] the one whose log lines say
    "Data API"; both answer POST only.  The upstream fetch of the handler
    that serves the [n]-th fetch of the page is the [n]-th fetch of the
    upstream world. *)
Definition route (up : world) (n : nat) (rq : fetch_request) : fetch_outcome :=
  match rq_target rq with
  | VJson (JStr path) =>
      if negb (String.eqb (rq_method rq) "POST") then
        Responded {| status := 405; body_text := Some EmptyString |}
      else if String.eqb path "/api/prompt" then
        deliver (outcome (run up (PromptRelay.POST (incoming rq)) 0 n tt))
      else if String.eqb path "/api/data" then
        deliver (outcome (run up (DataRelay.POST (incoming rq)) 0 n tt))
      else Responded {| status := 404; body_text := Some EmptyString |}
  | _ => Rejected
  end.

(** The world the page sees when its relays run over the world [up]. *)
Definition served (up : world) : world :=
  {| clock := clock up; network := route up |}.

(** A value that survives [JSON.stringify] followed by [JSON.parse]. *)
Definition survives (j : jsonv) : Prop :=
  JSON_parse (JSON_stringify j) = Some j.

End Deployment.
End App.

(** ** Disciplines of the handlers' state updates *)

Module Discipline.
Section Updates.
Context {host : Host}.
Import GreensboroAIChat.

(** A tree all of whose updates satisfy [P]. *)
Inductive updating (P : (state -> state) -> Prop) {A : Type} : proc state A -> Prop :=
| updating_Ret a : updating P (Ret a)
| updating_Throw e : updating P (Throw e)
| updating_Now k : (forall t, updating P (k t)) -> updating P (Now k)
| updating_Await rq k : (forall o, updating P (k o)) -> updating P (Await rq k)
| updating_SetState f k : P f -> updating P k -> updating P (SetState f k).

(** An update that leaves the loading flag as it is. *)
Definition keeps_loading (f : state -> state) : Prop :=
  forall s, isLoading (f s) = isLoading s.

(** An update that touches neither the selection nor the welcome flag. *)
Definition keeps_frame (f : state -> state) : Prop :=
  forall s, selectedItem (f s) = selectedItem s /\ showWelcome (f s) = showWelcome s.

(** A tree that is at its end. *)
Inductive ended : proc state unit -> Prop :=
| ended_Ret a : ended (Ret a)
| ended_Throw e : ended (Throw e).

(** A tree that, started while the loading flag is set, leaves the flag set
    as long as it waits for a [fetch] and clears it with its last update. *)
Inductive finishing : proc state unit -> Prop :=
| finishing_Now k : (forall t, finishing (k t)) -> finishing (Now k)
| finishing_Await rq k : (forall o, finishing (k o)) -> finishing (Await rq k)
| finishing_keep f k : keeps_loading f -> finishing k -> finishing (SetState f k)
| finishing_clear f k :
    (forall s, isLoading (f s) = false) -> ended k -> finishing (SetState f k).

(** The loading flag is set exactly while a call is in flight, and then one
    call is, whose handler is [finishing]. *)
Definition gated (c : config) : Prop :=
  (isLoading (ui c) = false /\ inflight c = []) \/
  (isLoading (ui c) = true /\
   exists rq k, inflight c = [(rq, k)] /\ forall o, finishing (k o)).

(** A message holds [data] exactly when it is a results message, and the
    [data] it holds is truthy. *)
Definition well_formed (m : ChatMessage) : Prop :=
  match data m with
  | Some payload => type m = results /\ truthy payload = true
  | None => type m <> results
  end.

(** An update that keeps the transcript well formed. *)
Definition keeps_well_formed (f : state -> state) : Prop :=
  forall s, Forall well_formed (messages s) -> Forall well_formed (messages (f s)).

(** The messages a submission writes when it is alone with the world: its
    clock readings are the first of the world, two for the user message,
    then two for each further message. *)
Definition summaryMessage (w : world) (q : string) (d : option jsonv) : ChatMessage :=
  {| id := string_of_Z (clock w 2 + 1); type := assistant;
     content := summary_text (or_zero (opt_length d)) q;
     timestamp := clock w 3; data := None |}.

Definition resultsMessage (w : world) (d : option jsonv) : ChatMessage :=
  {| id := string_of_Z (clock w 4 + 2); type := results;
     content := EmptyString;
     timestamp := clock w 5; data := Some (or_empty d) |}.

(** The error message, when [n] clock readings precede the [catch] block. *)
Definition errorMessage (w : world) (n : nat) : ChatMessage :=
  {| id := string_of_Z (clock w n + 1); type := assistant;
     content := error_text;
     timestamp := clock w (S n); data := None |}.

(** The greeting that [handleGetStarted] writes at time [t]. *)
Definition greeting (t : Z) : ChatMessage :=
  {| id := "1"; type := assistant; content := welcome_text;
     timestamp := t; data := None |}.

End Updates.
End Discipline.

(** ** More worlds for the examples *)

Module Scenarios.
Import GreensboroAIChat Examples.

#[local] Existing Instance Sample.host.

(** The prompt answer names no data URL. *)
Definition no_url : world :=
  world_of [respond 200 "{}"; respond 200 records_text].

(** The data answer has no [data]. *)
Definition no_data : world :=
  world_of [respond 200 descriptor_text; respond 200 "{}"].

(** An item with three categories and one attraction type. *)
Definition tagged : jsonv :=
  JObj [("id", JStr "3");
        ("eventItemCategories",
         JArr [JObj [("category_name", JStr "Music")];
               JObj [("category_name", JStr "Outdoors")];
               JObj [("category_name", JStr "Family")]]);
        ("attractionTypes", JArr [JObj [("attraction_type", JStr "Park")]])].

(** The upstream services: the natural-language service answers the first
    fetch, the data service the second. *)
Definition upstream_fine : world :=
  world_of [respond 200 descriptor_text; respond 201 records_text].

Definition upstream_down : world :=
  world_of [respond 503 "Service Unavailable"].

Definition data_fetch : NextRequest :=
  {| req_url := "/api/data"; req_headers := content_type_json;
     req_body := "{" ++ Sample.quoted "apiUrl" ++ ":"
                     ++ Sample.quoted "http://data.example/events" ++ "}" |}.

(** The data service alone, as the upstream of the Data Relay. *)
Definition data_upstream : world := world_of [respond 201 records_text].

(** The natural-language service alone, answering with a descriptor. *)
Definition prompt_upstream : world := world_of [respond 200 descriptor_text].

Definition empty_fetch : NextRequest :=
  {| req_url := "/api/data"; req_headers := content_type_json; req_body := "{}" |}.

(** The page after "Get Started", with "jazz" typed, and with "jazz"
    submitted and the Prompt Relay call in flight. *)
Definition chat : config := launch (clock fine) handleGetStarted start.

Definition typed : config :=
  {| ui := setInput "jazz" (ui chat); inflight := inflight chat |}.

Definition waiting : config := launch (clock fine) (handleSubmit (ui typed)) typed.

End Scenarios.

(** ** Worlds in which a fetch may never settle *)

Section OpenWorlds.
Context {host : Host}.

(** As [world], but the network may leave a fetch pending for ever:
    [None] is a promise that never settles. *)
Record open_world : Type := {
  open_clock : nat -> Z;
  open_network : nat -> fetch_request -> option fetch_outcome
}.

(** The run of [p] in an open world: [None] when [p] awaits a fetch that
    never settles, so that [p] neither returns nor throws. *)
Fixpoint run_open {St A : Type} (w : open_world) (p : proc St A) (tick call : nat) (s : St)
  : option (trace St A) :=
  match p with
  | Ret a => Some {| outcome := Ok a; final := s; calls := []; ticks := 0 |}
  | Throw e => Some {| outcome := Raise e; final := s; calls := []; ticks := 0 |}
  | Now k =>
      match run_open w (k (open_clock w tick)) (S tick) call s with
      | Some t =>
          Some {| outcome := outcome t; final := final t; calls := calls t;
                  ticks := S (ticks t) |}
      | None => None
      end
  | Await rq k =>
      match open_network w call rq with
      | Some o =>
          match run_open w (k o) tick (S call) s with
          | Some t =>
              Some {| outcome := outcome t; final := final t;
                      calls := (rq, s) :: calls t; ticks := ticks t |}
          | None => None
          end
      | None => None
      end
  | SetState f k => run_open w k tick call (f s)
  end.


(** A world in which every fetch settles, as an open world. *)
Definition settled (w : world) : open_world :=
  {| open_clock := clock w;
     open_network := fun n rq => Some (network w n rq) |}.


End OpenWorlds.

(** ** A walk through the page *)

Module Walk.
Import GreensboroAIChat Examples Scenarios.

#[local] Existing Instance Sample.host.

(** The page once the submission of "jazz" is through in the world [fine]:
    the transcript holds the greeting, the question, the summary and the
    results. *)
Definition shown : config :=
  {| ui := final (run fine (handleSubmit (ui typed)) 0 0 (ui typed));
     inflight := inflight typed |}.

(** The results message on screen in [shown]. *)
Definition shown_results : ChatMessage :=
  last (messages (ui shown)) (Discipline.greeting 0).

(** [shown] with the card of [concert] clicked. *)
Definition picked : config :=
  {| ui := select concert (ui shown); inflight := inflight shown |}.

(** The call that is in flight in [waiting], and [waiting] once that call
    has come back with status 503. *)
Definition idle : task :=
  ({| rq_target := VUndefined; rq_method := EmptyString;
      rq_headers := []; rq_body := None |},
   fun _ => Ret tt).

Definition waiting_task : task := hd idle (inflight waiting).

Definition refused : config :=
  launch (clock prompt_down)
    (snd waiting_task (respond 503 "Service Unavailable"))
    {| ui := ui waiting; inflight := [] |}.

(** An item with three categories, one attraction type and the price "0". *)
Definition tagged_free : jsonv :=
  JObj [("id", JStr "4");
        ("price", JStr "0");
        ("eventItemCategories",
         JArr [JObj [("category_name", JStr "Music")];
               JObj [("category_name", JStr "Outdoors")];
               JObj [("category_name", JStr "Family")]]);
        ("attractionTypes", JArr [JObj [("attraction_type", JStr "Park")]])].

End Walk.

(** * Properties *)

Unset Implicit Arguments.

(** ** White space *)

Lemma trimStart_blank (s : string) : blank s = true -> trimStart s = EmptyString.
Proof.
  induction s as [|c r IH]; simpl; [reflexivity|].
  intros H. apply andb_prop in H as [Hc Hr]. rewrite Hc. auto.
Qed.

Lemma trimStart_head (s : string) (c : ascii) (r : string) :
  trimStart s = String c r -> is_whitespace c = false.
Proof.
  induction s as [|c' r' IH]; simpl; [discriminate|].
  destruct (is_whitespace c') eqn:E; [exact IH|].
  intros H. injection H as -> _. exact E.
Qed.

Lemma trimStart_empty (s : string) : trimStart s = EmptyString -> blank s = true.
Proof.
  induction s as [|c r IH]; simpl; [reflexivity|].
  destruct (is_whitespace c); [exact IH | discriminate].
Qed.

Lemma trimEnd_head (c : ascii) (r : string) :
  is_whitespace c = false -> trimEnd (String c r) <> EmptyString.
Proof.
  intros Hc. simpl. destruct (trimEnd r); [rewrite Hc|]; discriminate.
Qed.

(** [!input.trim()] holds exactly for the blank inputs. *)
Lemma trim_blank (s : string) : str_truthy (trim s) = false <-> blank s = true.
Proof.
  unfold trim. split.
  - destruct (trimStart s) as [|c r] eqn:E.
    + intros _. now apply trimStart_empty.
    + intros H. exfalso. apply trimStart_head in E.
      apply (@trimEnd_head c r) in E. destruct (trimEnd (String c r)); [auto | discriminate].
  - intros H. now rewrite (trimStart_blank _ H).
Qed.

(** ** Runs of composed trees *)

Section RunLaws.
Context {host : Host}.
Variables St : Type.

Lemma run_bind (A B : Type) (w : world) (p : proc St A) (f : A -> proc St B) :
  forall tick call s,
    run w (bind p f) tick call s =
    let t := run w p tick call s in
    match outcome t with
    | Ok a => after t (run w (f a) (tick + ticks t) (call + List.length (calls t)) (final t))
    | Raise e => ending t (Raise e)
    end.
Proof.
  induction p as [a|e|k IH|rq k IH|g k IH]; intros tick call s; simpl.
  - rewrite !Nat.add_0_r. now destruct (run w (f a) tick call s).
  - reflexivity.
  - rewrite IH; simpl.
    destruct (outcome (run w (k (clock w tick)) (S tick) call s)); [|reflexivity].
    unfold after; simpl. now rewrite Nat.add_succ_r.
  - rewrite IH; simpl.
    destruct (outcome (run w (k (network w call rq)) tick (S call) s)); [|reflexivity].
    unfold after; simpl. now rewrite Nat.add_succ_r.
  - apply IH.
Qed.

Lemma run_try_catch (A : Type) (w : world) (p : proc St A) (h : exn -> proc St A) :
  forall tick call s,
    run w (try_catch p h) tick call s =
    let t := run w p tick call s in
    match outcome t with
    | Ok a => t
    | Raise e => after t (run w (h e) (tick + ticks t) (call + List.length (calls t)) (final t))
    end.
Proof.
  induction p as [a|e|k IH|rq k IH|g k IH]; intros tick call s; simpl.
  - reflexivity.
  - rewrite !Nat.add_0_r. now destruct (run w (h e) tick call s).
  - rewrite IH; simpl.
    destruct (run w (k (clock w tick)) (S tick) call s) as [[a|e] fs cs ts]; simpl; [reflexivity|].
    unfold after; simpl. now rewrite Nat.add_succ_r.
  - rewrite IH; simpl.
    destruct (run w (k (network w call rq)) tick (S call) s) as [[a|e] fs cs ts]; simpl; [reflexivity|].
    unfold after; simpl. now rewrite Nat.add_succ_r.
  - apply IH.
Qed.

Lemma run_try_finally (A : Type) (w : world) (p : proc St A) (fin : proc St unit) :
  forall tick call s,
    run w (try_finally p fin) tick call s =
    let t := run w p tick call s in
    after t (run w (bind fin (fun _ => lift (outcome t)))
               (tick + ticks t) (call + List.length (calls t)) (final t)).
Proof.
  induction p as [a|e|k IH|rq k IH|g k IH]; intros tick call s; simpl.
  - rewrite !Nat.add_0_r. now destruct (run w (bind fin _) tick call s).
  - rewrite !Nat.add_0_r. now destruct (run w (bind fin _) tick call s).
  - rewrite IH; simpl. unfold after; simpl. now rewrite Nat.add_succ_r.
  - rewrite IH; simpl. unfold after; simpl. now rewrite Nat.add_succ_r.
  - apply IH.
Qed.

End RunLaws.

Section Submission.
Context {host : Host}.
Import GreensboroAIChat.

Lemma run_callPromptAPI (w : world) (q : string) (tick : nat) (s : state) :
  run w (callPromptAPI q) tick 0 s =
  {| outcome := prompt_result w q;
     final := s; calls := [(prompt_request q, s)]; ticks := 0 |}.
Proof.
  unfold prompt_result, callPromptAPI, fetch, json_of_text; simpl.
  destruct (network w 0 (prompt_request q)) as [|r]; simpl; [reflexivity|].
  destruct (ok r); simpl; [|reflexivity].
  destruct (body_text r) as [t|]; simpl; [|reflexivity].
  destruct (parse t); reflexivity.
Qed.

Lemma run_callDataAPI (w : world) (u : option jsonv) (tick : nat) (s : state) :
  run w (callDataAPI u) tick 1 s =
  {| outcome := data_result w u;
     final := s; calls := [(data_request u, s)]; ticks := 0 |}.
Proof.
  unfold data_result, callDataAPI, fetch, json_of_text; simpl.
  destruct (network w 1 (data_request u)) as [|r]; simpl; [reflexivity|].
  destruct (ok r); simpl; [|reflexivity].
  destruct (body_text r) as [t|]; simpl; [|reflexivity].
  destruct (parse t); reflexivity.
Qed.

Ltac run_step :=
  cbn [Nat.add List.length calls ticks final outcome after ending app lift];
  first [ rewrite run_callPromptAPI
        | rewrite run_callDataAPI
        | rewrite run_bind ].

(** The [try] block, by how far it gets. *)
Lemma run_try_prompt_failed (w : world) (q : string) (tick : nat) (s1 : state) (e : exn) :
  prompt_result w q = Raise e ->
  run w (handleSubmit_try q) tick 0 s1 =
  {| outcome := Raise e; final := s1; calls := [(prompt_request q, s1)]; ticks := 0 |}.
Proof.
  intros H. unfold handleSubmit_try.
  do 2 run_step. cbn [outcome]. now rewrite H.
Qed.

Lemma run_try_descriptor_null (w : world) (q : string) (tick : nat) (s1 : state)
    (apiResponse : jsonv) (e : exn) :
  prompt_result w q = Ok apiResponse ->
  get apiResponse "api_url" = Raise e ->
  run w (handleSubmit_try q) tick 0 s1 =
  {| outcome := Raise e; final := s1; calls := [(prompt_request q, s1)]; ticks := 0 |}.
Proof.
  intros H G. unfold handleSubmit_try.
  do 2 run_step. cbn [outcome]. rewrite H.
  run_step. rewrite G. reflexivity.
Qed.

Lemma run_try_data_failed (w : world) (q : string) (tick : nat) (s1 : state)
    (apiResponse : jsonv) (api_url : option jsonv) (e : exn) :
  prompt_result w q = Ok apiResponse ->
  get apiResponse "api_url" = Ok api_url ->
  data_result w api_url = Raise e ->
  run w (handleSubmit_try q) tick 0 s1 =
  {| outcome := Raise e; final := s1;
     calls := [(prompt_request q, s1); (data_request api_url, s1)]; ticks := 0 |}.
Proof.
  intros H G D. unfold handleSubmit_try.
  do 2 run_step. cbn [outcome]. rewrite H.
  run_step. rewrite G. cbn [lift run outcome].
  do 2 run_step. cbn [outcome]. now rewrite D.
Qed.

Lemma run_try_data_null (w : world) (q : string) (tick : nat) (s1 : state)
    (apiResponse dataResponse : jsonv) (api_url : option jsonv) (e : exn) :
  prompt_result w q = Ok apiResponse ->
  get apiResponse "api_url" = Ok api_url ->
  data_result w api_url = Ok dataResponse ->
  get dataResponse "data" = Raise e ->
  run w (handleSubmit_try q) tick 0 s1 =
  {| outcome := Raise e; final := s1;
     calls := [(prompt_request q, s1); (data_request api_url, s1)]; ticks := 1 |}.
Proof.
  intros H G D N. unfold handleSubmit_try.
  do 2 run_step. cbn [outcome]. rewrite H.
  run_step. rewrite G. cbn [lift run outcome].
  do 2 run_step. cbn [outcome]. rewrite D.
  cbn -[get]. rewrite N. reflexivity.
Qed.

Lemma run_try_completed (w : world) (q : string) (tick : nat) (s1 : state)
    (apiResponse dataResponse : jsonv) (api_url d : option jsonv) :
  prompt_result w q = Ok apiResponse ->
  get apiResponse "api_url" = Ok api_url ->
  data_result w api_url = Ok dataResponse ->
  get dataResponse "data" = Ok d ->
  exists a r,
    is_summary_message q d a /\ is_results_message d r /\
    run w (handleSubmit_try q) tick 0 s1 =
    {| outcome := Ok tt;
       final := setMessages (fun prev => (prev ++ [a; r])%list) s1;
       calls := [(prompt_request q, s1); (data_request api_url, s1)]; ticks := 4 |}.
Proof.
  intros H G D N. unfold handleSubmit_try.
  do 2 run_step. cbn [outcome]. rewrite H.
  run_step. rewrite G. cbn [lift run outcome].
  do 2 run_step. cbn [outcome]. rewrite D.
  cbn -[get summary_text or_zero opt_length or_empty]. rewrite N.
  cbn -[get summary_text or_zero opt_length or_empty].
  eexists _, _. split; [|split; [|reflexivity]]; repeat split.
Qed.

Lemma run_handleSubmit (w : world) (s : state) :
  isLoading s = false -> blank (input s) = false ->
  let t := run w (handleSubmit s) 0 0 s in
  let t' := settle w (run w (handleSubmit_try (input s)) 2 0 (submitted w s)) in
  outcome t = outcome t' /\ final t = final t' /\ calls t = calls t'.
Proof.
  intros Hl Hb. unfold handleSubmit.
  destruct (str_truthy (trim (input s))) eqn:E.
  2:{ apply trim_blank in E. congruence. }
  rewrite Hl. cbn -[handleSubmit_try handleSubmit_catch].
  rewrite run_try_finally, run_try_catch.
  fold (userMessage w s). fold (submitted w s).
  unfold settle.
  destruct (run w (handleSubmit_try (input s)) 2 0 (submitted w s)) as [[[]|e] fs cs ts].
  - simpl. rewrite app_nil_r. auto.
  - simpl. rewrite !app_nil_r. auto.
Qed.

Lemma get_raise (j : jsonv) (key : string) (e : exn) :
  get j key = Raise e -> j = JNull.
Proof. destruct j; simpl; intros H; try discriminate; reflexivity. Qed.

Lemma or_zero_length (n : nat) : or_zero (VInt (Z.of_nat n)) = VInt (Z.of_nat n).
Proof. unfold or_zero. destruct (Z.of_nat n =? 0) eqn:E; [|reflexivity].
  apply Z.eqb_eq in E. now rewrite E. Qed.

(** The transcript and the calls of a submission, by how the relays answer. *)
Lemma submit_answered (w : world) (s : state) (d : option jsonv) :
  isLoading s = false -> blank (input s) = false ->
  answered w (input s) d ->
  let t := run w (handleSubmit s) 0 0 s in
  exists a r,
    is_summary_message (input s) d a /\ is_results_message d r /\
    messages (final t) = (messages s ++ [userMessage w s; a; r])%list /\
    List.length (calls t) = 2%nat.
Proof.
  intros Hl Hb [apiResponse dataResponse api_url H G D N].
  destruct (run_handleSubmit w s Hl Hb) as (_ & Hf & Hc).
  destruct (run_try_completed w (input s) 2 (submitted w s) _ _ _ _ H G D N) as (a & r & Ha & Hr & E).
  cbv zeta. rewrite Hf, Hc, E. exists a, r.
  unfold settle; simpl.
  rewrite <- app_assoc. simpl. tauto.
Qed.

Lemma submit_unanswered (w : world) (s : state) :
  isLoading s = false -> blank (input s) = false ->
  unanswered w (input s) ->
  let t := run w (handleSubmit s) 0 0 s in
  exists m,
    is_error_message m /\
    messages (final t) = (messages s ++ [userMessage w s; m])%list.
Proof.
  intros Hl Hb U.
  destruct (run_handleSubmit w s Hl Hb) as (_ & Hf & _).
  cbv zeta. rewrite Hf.
  assert (exists e cs ts,
    run w (handleSubmit_try (input s)) 2 0 (submitted w s) =
    {| outcome := Raise e; final := submitted w s; calls := cs; ticks := ts |})
    as (e & cs & ts & E).
  { destruct U as [e H|H|apiResponse api_url e H G D|apiResponse api_url H G D].
    - eexists _, _, _. apply (run_try_prompt_failed w (input s) 2 (submitted w s) e H).
    - eexists _, _, _. apply (run_try_descriptor_null w (input s) 2 (submitted w s) JNull TypeError H).
      reflexivity.
    - eexists _, _, _. apply (run_try_data_failed w (input s) 2 (submitted w s) _ _ e H G D).
    - eexists _, _, _. apply (run_try_data_null w (input s) 2 (submitted w s) _ JNull _ TypeError H G D).
      reflexivity. }
  rewrite E. unfold settle; simpl.
  eexists. split; [|rewrite <- app_assoc; reflexivity].
  unfold is_error_message; simpl; auto.
Qed.

(** The relays either answer or do not. *)
Lemma answered_or_not (w : world) (q : string) :
  (exists d, answered w q d) \/ unanswered w q.
Proof.
  destruct (prompt_result w q) as [apiResponse|e] eqn:H.
  2:{ right. eapply prompt_call_fails; eauto. }
  destruct (get apiResponse "api_url") as [api_url|e] eqn:G.
  2:{ right. apply get_raise in G. subst. now apply prompt_body_null. }
  destruct (data_result w api_url) as [dataResponse|e] eqn:D.
  2:{ right. eapply data_call_fails; eauto. }
  destruct (get dataResponse "data") as [d|e] eqn:N.
  2:{ right. apply get_raise in N. subst. eapply data_body_null; eauto. }
  left. exists d. eapply answered_both; eauto.
Qed.

(** The calls of a submission that passes the guard. *)
Lemma submit_calls (w : world) (s : state) :
  isLoading s = false -> blank (input s) = false ->
  calls (run w (handleSubmit s) 0 0 s) =
  (prompt_request (input s), submitted w s) ::
  match prompt_result w (input s) with
  | Ok apiResponse =>
      match get apiResponse "api_url" with
      | Ok api_url => [(data_request api_url, submitted w s)]
      | Raise _ => []
      end
  | Raise _ => []
  end.
Proof.
  intros Hl Hb.
  destruct (run_handleSubmit w s Hl Hb) as (_ & _ & Hc). rewrite Hc.
  assert (forall t, calls (settle w t) = calls t) as ->
    by (intros t; unfold settle; now destruct (outcome t)).
  destruct (prompt_result w (input s)) as [apiResponse|e] eqn:H.
  2:{ now rewrite (run_try_prompt_failed w (input s) 2 (submitted w s) e H). }
  destruct (get apiResponse "api_url") as [api_url|e] eqn:G.
  2:{ now rewrite (run_try_descriptor_null w (input s) 2 (submitted w s) _ e H G). }
  destruct (data_result w api_url) as [dataResponse|e] eqn:D.
  2:{ now rewrite (run_try_data_failed w (input s) 2 (submitted w s) _ _ e H G D). }
  destruct (get dataResponse "data") as [d|e] eqn:N.
  2:{ now rewrite (run_try_data_null w (input s) 2 (submitted w s) _ _ _ e H G D N). }
  destruct (run_try_completed w (input s) 2 (submitted w s) _ _ _ _ H G D N)
    as (a & r & _ & _ & E).
  now rewrite E.
Qed.

(** A submission that the guard turns away. *)
Lemma run_rejected (w : world) (s : state) (tick call : nat) :
  isLoading s = true \/ blank (input s) = true ->
  run w (handleSubmit s) tick call s =
  {| outcome := Ok tt; final := s; calls := []; ticks := 0 |}.
Proof.
  intros H. unfold handleSubmit.
  assert (negb (str_truthy (trim (input s))) || isLoading s = true) as ->.
  { destruct H as [H|H].
    - rewrite H. apply orb_true_r.
    - apply trim_blank in H. now rewrite H. }
  reflexivity.
Qed.

(** C3.  While the loading flag is set, or when the input is empty or holds
    only white space, [handleSubmit] returns at once: whatever the world
    would answer, the state after it is the state before it (transcript,
    loading flag, input and selection alike) and no [fetch] is issued,
    neither to the Prompt Relay nor to the Data Relay. *)
Theorem submit_rejected (w : world) (s : state) (tick call : nat) :
  isLoading s = true \/ blank (input s) = true ->
  run w (handleSubmit s) tick call s =
  {| outcome := Ok tt; final := s; calls := []; ticks := 0 |}.
Proof. apply run_rejected. Qed.


(** C4.  When the Prompt Relay call of a submission fails, the only call
    issued is the one to the Prompt Relay and the transcript receives the
    user message and exactly one generic error message; and in every run a
    call to the Data Relay comes second, after a Prompt Relay call that
    resolved. *)
Theorem prompt_failure_stops_submission (w : world) (s : state) :
  let t := run w (handleSubmit s) 0 0 s in
  (forall e,
     isLoading s = false -> blank (input s) = false ->
     prompt_result w (input s) = Raise e ->
     map fst (calls t) = [prompt_request (input s)] /\
     exists m, is_error_message m /\
       messages (final t) = (messages s ++ [userMessage w s; m])%list)
  /\
  (forall before rq st after,
     calls t = (before ++ (rq, st) :: after)%list ->
     rq_target rq = VJson (JStr "/api/data") ->
     map fst before = [prompt_request (input s)] /\
     exists apiResponse, prompt_result w (input s) = Ok apiResponse).
Proof.
  intros t. split.
  - intros e Hl Hb H. split.
    + unfold t. rewrite (submit_calls w s Hl Hb), H. reflexivity.
    + apply (submit_unanswered w s Hl Hb). now apply prompt_call_fails with e.
  - intros before rq st after Hc Ht.
    destruct (isLoading s) eqn:Hl.
    { unfold t in Hc. rewrite run_rejected in Hc by auto.
      simpl in Hc. now destruct before. }
    destruct (blank (input s)) eqn:Hb.
    { unfold t in Hc. rewrite run_rejected in Hc by auto.
      simpl in Hc. now destruct before. }
    unfold t in Hc. rewrite (submit_calls w s Hl Hb) in Hc.
    destruct before as [|b before].
    { simpl in Hc. injection Hc as Hrq _ _. subst rq. discriminate Ht. }
    simpl in Hc. injection Hc as Hb0 Hrest. subst b.
    destruct (prompt_result w (input s)) as [apiResponse|e].
    2:{ now destruct before. }
    split; [|eauto].
    destruct (get apiResponse "api_url").
    2:{ now destruct before. }
    destruct before as [|b' before]; [reflexivity|].
    simpl in Hrest. injection Hrest as _ Hrest. now destruct before.
Qed.

(** C7.  When both relay calls of a submission resolve and the Data Relay's
    answer has a [data] property holding an array of N records, the results
    message that is appended carries exactly that array, and the summary
    message states N. *)
Theorem results_payload_is_data (w : world) (s : state)
    (apiResponse dataResponse : jsonv) (api_url : option jsonv) (items : list jsonv) :
  isLoading s = false -> blank (input s) = false ->
  prompt_result w (input s) = Ok apiResponse ->
  get apiResponse "api_url" = Ok api_url ->
  data_result w api_url = Ok dataResponse ->
  get dataResponse "data" = Ok (Some (JArr items)) ->
  let t := run w (handleSubmit s) 0 0 s in
  exists a r,
    messages (final t) = (messages s ++ [userMessage w s; a; r])%list /\
    type r = results /\
    data r = Some (JArr items) /\
    type a = assistant /\
    content a = summary_text (VInt (Z.of_nat (List.length items))) (input s).
Proof.
  intros Hl Hb H G D N.
  destruct (submit_answered w s (Some (JArr items)) Hl Hb) as (a & r & Ha & Hr & Hm & _).
  { now apply answered_both with apiResponse dataResponse api_url. }
  exists a, r. destruct Ha as (Ha1 & Ha2 & _), Hr as (Hr1 & _ & Hr3).
  cbn [opt_length] in Ha2. rewrite or_zero_length in Ha2.
  cbn [or_empty truthy] in Hr3. auto.
Qed.

End Submission.

(** ** The relays *)

Section Relays.
Context {host : Host}.

Ltac envelope := left; split; [reflexivity | eexists; reflexivity].

(** The Data Relay, case by case. *)
Lemma data_relay_rejects (w : world) (request : NextRequest) (e : exn) :
  DataRelay.requested request = Raise e ->
  serve w (DataRelay.POST request) =
  {| outcome := Ok (NextResponse_json (error_body "Failed to fetch data API") 500);
     final := tt; calls := []; ticks := 0 |}.
Proof.
  unfold DataRelay.requested, serve, DataRelay.POST, request_json, json_of_text.
  destruct (parse (req_body request)) as [body|e']; simpl; [|reflexivity].
  intros H. rewrite H. reflexivity.
Qed.

Lemma data_relay_forwards (w : world) (request : NextRequest) (apiUrl : option jsonv) :
  DataRelay.requested request = Ok apiUrl ->
  exists response,
    serve w (DataRelay.POST request) =
    {| outcome := Ok response; final := tt;
       calls := [(DataRelay.forwarded apiUrl, tt)]; ticks := 0 |} /\
    (is_failure response \/
     exists r t data,
       network w 0 (DataRelay.forwarded apiUrl) = Responded r /\
       ok r = true /\ body_text r = Some t /\ JSON_parse t = Some data /\
       response = NextResponse_json data 200).
Proof.
  unfold DataRelay.requested, serve, DataRelay.POST, request_json, json_of_text.
  destruct (parse (req_body request)) as [body|e']; simpl; [|discriminate].
  intros H. rewrite H. simpl. unfold parse.
  destruct (network w 0 (DataRelay.forwarded apiUrl)) as [|r] eqn:N; simpl.
  { eexists. split; [reflexivity|]. envelope. }
  destruct (ok r) eqn:O; simpl.
  2:{ eexists. split; [reflexivity|]. envelope. }
  destruct (body_text r) as [t|] eqn:B; simpl.
  2:{ eexists. split; [reflexivity|]. envelope. }
  destruct (JSON_parse t) as [data|] eqn:P; simpl.
  2:{ eexists. split; [reflexivity|]. envelope. }
  eexists. split; [reflexivity|]. right. exists r, t, data. auto.
Qed.

(** C5.  Every call the Data Relay issues is a POST with the Content-Type
    header alone and no body, and the calls issued for two requests that ask
    for the same [apiUrl] are the same, whatever else the requests hold and
    whatever the world answers. *)
Theorem data_relay_forwards_url_only (w w' : world) (request request' : NextRequest) :
  (forall rq,
     In rq (map fst (calls (serve w (DataRelay.POST request)))) ->
     rq_method rq = "POST" /\
     rq_headers rq = content_type_json /\
     rq_body rq = None) /\
  (DataRelay.requested request = DataRelay.requested request' ->
   map fst (calls (serve w (DataRelay.POST request))) =
   map fst (calls (serve w' (DataRelay.POST request')))).
Proof.
  split.
  - intros rq. destruct (DataRelay.requested request) as [apiUrl|e] eqn:R.
    + destruct (data_relay_forwards w request apiUrl R) as (response & -> & _).
      simpl. intros [<-|[]]. auto.
    + rewrite (data_relay_rejects w request e R). intros [].
  - intros E. destruct (DataRelay.requested request) as [apiUrl|e] eqn:R; symmetry in E.
    + destruct (data_relay_forwards w request apiUrl R) as (response & -> & _).
      destruct (data_relay_forwards w' request' apiUrl E) as (response' & -> & _).
      reflexivity.
    + rewrite (data_relay_rejects w request e R).
      rewrite (data_relay_rejects w' request' e E). reflexivity.
Qed.

(** The Prompt Relay, case by case. *)
Lemma prompt_relay_rejects (w : world) (request : NextRequest) (e : exn) :
  parse (req_body request) = Raise e ->
  serve w (PromptRelay.POST request) =
  {| outcome := Ok (NextResponse_json (error_body "Failed to fetch prompt API") 500);
     final := tt; calls := []; ticks := 0 |}.
Proof.
  unfold serve, PromptRelay.POST, request_json, json_of_text.
  intros H. rewrite H. reflexivity.
Qed.

Lemma prompt_relay_forwards (w : world) (request : NextRequest) (body : jsonv) :
  parse (req_body request) = Ok body ->
  serve w (PromptRelay.POST request) =
  {| outcome :=
       Ok match network w 0 (PromptRelay.forwarded body) with
          | Rejected => NextResponse_json (error_body "Failed to fetch prompt API") 500
          | Responded r =>
              if ok r then
                match body_text r with
                | Some t =>
                    match JSON_parse t with
                    | Some data => NextResponse_json data 200
                    | None =>
                        NextResponse_json
                          (error_body ("API returned non-JSON response: " ++ t)) 500
                    end
                | None => NextResponse_json (error_body "Failed to fetch prompt API") 500
                end
              else NextResponse_json (error_body "Failed to fetch prompt API") 500
          end;
     final := tt; calls := [(PromptRelay.forwarded body, tt)]; ticks := 0 |}.
Proof.
  unfold serve, PromptRelay.POST, request_json, json_of_text.
  intros H. rewrite H. simpl.
  destruct (network w 0 (PromptRelay.forwarded body)) as [|r]; simpl; [reflexivity|].
  destruct (ok r); simpl; [|reflexivity].
  unfold text, parse. destruct (body_text r) as [t|]; simpl; [|reflexivity].
  destruct (JSON_parse t); reflexivity.
Qed.

(** C6.  When the upstream of the Prompt Relay answers with a success
    status and a body that [JSON.parse] rejects, the relay responds with
    status 500 and the JSON object whose one property, [error], is a string
    that ends with the upstream text; when the upstream answers with
    another status, the relay responds with status 500 and the JSON object
    whose [error] is a fixed string that holds nothing of the upstream
    body. *)
Theorem prompt_relay_malformed (w : world) (request : NextRequest)
    (body : jsonv) (r : Response) :
  parse (req_body request) = Ok body ->
  network w 0 (PromptRelay.forwarded body) = Responded r ->
  (forall t,
     ok r = true -> body_text r = Some t -> JSON_parse t = None ->
     outcome (serve w (PromptRelay.POST request)) =
     Ok {| res_status := 500;
           res_body :=
             JObj [("error", JStr ("API returned non-JSON response: " ++ t))] |}) /\
  (ok r = false ->
   outcome (serve w (PromptRelay.POST request)) =
   Ok {| res_status := 500;
         res_body := JObj [("error", JStr "Failed to fetch prompt API")] |}).
Proof.
  intros H N. rewrite (prompt_relay_forwards w request body H), N. simpl. split.
  - intros t O B P. now rewrite O, B, P.
  - intros O. now rewrite O.
Qed.

End Relays.

(** ** The page as a transition system *)

Section Page.
Context {host : Host}.
Import GreensboroAIChat.

Lemma appending_bind (A B : Type) (p : proc state A) (f : A -> proc state B) :
  appending p -> (forall a, appending (f a)) -> appending (bind p f).
Proof.
  intros Hp Hf. induction Hp; simpl; try constructor; auto.
Qed.

Lemma appending_try_catch (A : Type) (p : proc state A) (h : exn -> proc state A) :
  appending p -> (forall e, appending (h e)) -> appending (try_catch p h).
Proof.
  intros Hp Hh. induction Hp; simpl; try constructor; auto.
Qed.

Lemma appending_try_finally (A : Type) (p : proc state A) (fin : proc state unit) :
  appending p -> appending fin -> appending (try_finally p fin).
Proof.
  intros Hp Hfin.
  induction Hp; simpl; try (constructor; auto);
    apply appending_bind; auto; intros; constructor.
Qed.

Lemma appending_lift (A : Type) (r : result A) : appending (lift (St:=state) r).
Proof. destruct r; constructor. Qed.

Lemma appending_now : appending (now (St:=state)).
Proof. constructor. intros t. constructor. Qed.

Lemma appending_setState (f : state -> state) :
  extends_transcript f -> appending (setState f).
Proof. intros H. constructor; [exact H | constructor]. Qed.

Lemma appending_fetch (rq : fetch_request) : appending (fetch (St:=state) rq).
Proof. constructor. intros [|r]; constructor. Qed.

Lemma appending_json_of_text (body : option string) :
  appending (json_of_text (St:=state) body).
Proof. destruct body; simpl; [apply appending_lift | constructor]. Qed.

Lemma appending_callPromptAPI (q : string) : appending (callPromptAPI q).
Proof.
  apply appending_bind; [apply appending_fetch|].
  intros r. destruct (negb (ok r)); [constructor | apply appending_json_of_text].
Qed.

Lemma appending_callDataAPI (u : option jsonv) : appending (callDataAPI u).
Proof.
  apply appending_bind; [apply appending_fetch|].
  intros r. destruct (negb (ok r)); [constructor | apply appending_json_of_text].
Qed.

Lemma extends_append (l : list ChatMessage) :
  extends_transcript (setMessages (fun prev => (prev ++ l)%list)).
Proof. intros s H. split; [exact H | now exists l]. Qed.

Lemma extends_setInput (v : string) : extends_transcript (setInput v).
Proof. intros s H. split; [exact H | exists []; simpl; now rewrite app_nil_r]. Qed.

Lemma extends_setIsLoading (b : bool) : extends_transcript (setIsLoading b).
Proof. intros s H. split; [exact H | exists []; simpl; now rewrite app_nil_r]. Qed.

Create HintDb appending.
#[local] Hint Resolve appending_lift appending_now appending_setState
  appending_callPromptAPI appending_callDataAPI extends_append
  extends_setInput extends_setIsLoading : appending.

Ltac appending_bind := apply appending_bind; [auto with appending | intros ?].

Lemma appending_handleSubmit_try (q : string) : appending (handleSubmit_try q).
Proof.
  unfold handleSubmit_try. repeat appending_bind. auto with appending.
Qed.

Lemma appending_handleSubmit_catch (e : exn) : appending (handleSubmit_catch e).
Proof.
  unfold handleSubmit_catch. repeat appending_bind. auto with appending.
Qed.

Lemma appending_handleSubmit (s : state) : appending (handleSubmit s).
Proof.
  unfold handleSubmit.
  destruct (negb (str_truthy (trim (input s))) || isLoading s); [constructor|].
  repeat appending_bind.
  apply appending_try_finally; [|auto with appending].
  apply appending_try_catch;
    [apply appending_handleSubmit_try | apply appending_handleSubmit_catch].
Qed.

(** A tree of appending updates, run up to its first suspension. *)
Lemma advance_appending (tm : nat -> Z) (p : proc state unit) :
  appending p ->
  forall tick s, showWelcome s = false ->
    showWelcome (fst (advance tm p tick s)) = false /\
    (exists tail, messages (fst (advance tm p tick s)) = (messages s ++ tail)%list) /\
    (forall t, snd (advance tm p tick s) = Some t -> forall o, appending (snd t o)).
Proof.
  intros Hp. induction Hp as [a|e|k Hk IH|rq k Hk IH|f k Hf Hk IH]; intros tick s Hs; simpl.
  - split; [exact Hs|]. split; [exists []; now rewrite app_nil_r | discriminate].
  - split; [exact Hs|]. split; [exists []; now rewrite app_nil_r | discriminate].
  - apply IH, Hs.
  - split; [exact Hs|]. split; [exists []; now rewrite app_nil_r|].
    intros t E. injection E as <-. exact Hk.
  - destruct (Hf s Hs) as (Hs' & tail & Ht).
    destruct (IH tick (f s) Hs') as (H1 & (tail' & H2) & H3).
    split; [exact H1|]. split; [|exact H3].
    exists (tail ++ tail')%list. now rewrite H2, Ht, app_assoc.
Qed.

Lemma launch_appending (tm : nat -> Z) (p : proc state unit) (c : config) :
  appending p -> showWelcome (ui c) = false ->
  Forall (fun t : task => forall o, appending (snd t o)) (inflight c) ->
  invariant (launch tm p c) /\
  exists tail, messages (ui (launch tm p c)) = (messages (ui c) ++ tail)%list.
Proof.
  intros Hp Hs Hin.
  destruct (advance_appending tm p Hp 0 (ui c) Hs) as (H1 & H2 & H3).
  unfold launch. destruct (advance tm p 0 (ui c)) as [s' suspended]; simpl in *.
  split; [|exact H2]. split; simpl.
  - rewrite H1. discriminate.
  - destruct suspended as [t|]; [|exact Hin].
    constructor; [now apply H3 | exact Hin].
Qed.

Lemma step_invariant (c c' : config) :
  invariant c -> step c c' ->
  invariant c' /\
  exists tail, messages (ui c') = (messages (ui c) ++ tail)%list.
Proof.
  intros [Hw Hin] Hstep.
  destruct Hstep as [c tm Hs|c tm Hs|c before rq k after o tm Hc|c item Hs Hi|c Hs|c v Hs Hl].
  - destruct (Hw Hs) as [Hm Hi]. unfold launch; simpl. rewrite Hm, Hi.
    split; [|eexists; reflexivity].
    split; simpl; [discriminate | constructor].
  - apply launch_appending; [apply appending_handleSubmit | exact Hs | exact Hin].
  - rewrite Hc in Hin.
    assert (showWelcome (ui c) = false) as Hs.
    { destruct (showWelcome (ui c)); [|reflexivity].
      destruct Hw as [_ Hi]; [reflexivity|]. rewrite Hi in Hc. now destruct before. }
    apply Forall_app in Hin as [Hb Ha]. inversion Ha as [|x l Hk Ha']; subst.
    apply (launch_appending tm (k o) {| ui := ui c; inflight := (before ++ after)%list |}).
    + apply Hk.
    + exact Hs.
    + apply Forall_app. now split.
  - split; [|exists []; simpl; now rewrite app_nil_r].
    split; simpl; [rewrite Hs; discriminate | exact Hin].
  - split; [|exists []; simpl; now rewrite app_nil_r].
    split; simpl; [rewrite Hs; discriminate | exact Hin].
  - split; [|exists []; simpl; now rewrite app_nil_r].
    split; simpl; [rewrite Hs; discriminate | exact Hin].
Qed.

Lemma reachable_invariant (c : config) : reachable c -> invariant c.
Proof.
  induction 1 as [|c c' _ IH Hstep].
  - split; simpl; [auto | constructor].
  - now apply (step_invariant c c').
Qed.

(** *** A run is a path of the transition system *)

Lemma advance_shift (tm : nat -> Z) (d : nat) (p : proc state unit) :
  forall tick s,
    advance (fun n => tm (d + n)%nat) p tick s = advance tm p (d + tick) s.
Proof.
  induction p as [a|e|k IH|rq k IH|f k IH]; intros tick s; simpl; auto.
  rewrite IH. now rewrite Nat.add_succ_r.
Qed.

(** When the handler [p] is started in [c] and reads the clock of the world
    from [tick] on, the page reaches the state in which [run] leaves it, by
    the settling of the calls that [p] issues. *)
Lemma run_is_path (w : world) (p : proc state unit) :
  forall tm tick call c,
    (forall n, tm n = clock w (tick + n)) ->
    reachable (launch tm p c) ->
    reachable {| ui := final (run w p tick call (ui c)); inflight := inflight c |}.
Proof.
  unfold launch.
  induction p as [a|e|k IH|rq k IH|f k IH]; intros tm tick call c Htm; simpl.
  - auto.
  - auto.
  - intros H. apply (IH (clock w tick) (fun n => tm (1 + n)%nat) (S tick) call c).
    + intros n. rewrite Htm. f_equal. lia.
    + rewrite advance_shift. simpl.
      rewrite <- (Nat.add_0_r tick), <- Htm. exact H.
  - intros H.
    apply (IH (network w call rq) tm tick (S call) c Htm).
    apply reachable_step with (1 := H).
    apply (step_settle {| ui := ui c; inflight := (rq, k) :: inflight c |}
             [] rq k (inflight c) (network w call rq) tm).
    reflexivity.
  - intros H.
    apply (IH tm tick call {| ui := f (ui c); inflight := inflight c |} Htm). exact H.
Qed.

(** The state in which [run] leaves a submission is one the page reaches by
    a submit event and the settling of the calls it issued. *)
Lemma submission_reachable (w : world) (c : config) :
  reachable c -> showWelcome (ui c) = false ->
  reachable {| ui := final (run w (handleSubmit (ui c)) 0 0 (ui c));
               inflight := inflight c |}.
Proof.
  intros Hr Hs. apply (run_is_path w (handleSubmit (ui c)) (clock w)).
  - reflexivity.
  - apply reachable_step with (1 := Hr). apply (step_submit c (clock w) Hs).
Qed.

(** C9.  Every event of the page, taken in a configuration the page can
    reach (the start, a submission, the settling of a relay call, a
    selection, a keystroke), leaves the transcript as it is or adds messages
    at its end: the transcript before the event is a prefix of the
    transcript after it. *)
Theorem transcript_append_only (c c' : config) :
  reachable c -> step c c' ->
  exists tail, messages (ui c') = (messages (ui c) ++ tail)%list.
Proof.
  intros Hr Hstep. apply (step_invariant c c'); [|exact Hstep].
  now apply reachable_invariant.
Qed.

(** C8.  Selecting an item makes it the selected item whatever was selected
    before, selecting another one replaces it, dismissing the dialog leaves
    nothing selected, and in every configuration the page can reach at most
    one item is selected. *)
Theorem selection_at_most_one (s : state) (x y : jsonv) :
  selectedItem (select x s) = Some x /\
  selectedItem (select y (select x s)) = Some y /\
  selectedItem (deselect (select x s)) = None /\
  (forall c, reachable c -> (List.length (selection (ui c)) <= 1)%nat).
Proof.
  repeat split. intros c _. unfold selection.
  destruct (selectedItem (ui c)); simpl; lia.
Qed.

(** The price on a result card. *)
Lemma cardPrice_string (item : jsonv) (p : string) :
  get item "price" = Ok (Some (JStr p)) ->
  cardPrice item =
  Ok (Some (JStr (if String.eqb p "0" || String.eqb p "free" then "Free" else p))).
Proof.
  intros H. unfold cardPrice, price_expr; simpl. rewrite H; simpl.
  destruct (String.eqb p "0"); [reflexivity|]. simpl.
  destruct (String.eqb p "free"); [reflexivity|]. reflexivity.
Qed.

(** The price in the detail dialog: rendered for the price ["0"] alone. *)
Lemma detailPrice_string (selected : jsonv) (p : string) :
  get selected "price" = Ok (Some (JStr p)) ->
  detailPrice selected =
  if String.eqb p "0" then Ok (Some (JStr "Free")) else Raise ReferenceError.
Proof.
  intros H. unfold detailPrice, price_expr; simpl. rewrite H; simpl.
  destruct (String.eqb p "0"); reflexivity.
Qed.

(** C1.  For the item whose stored price is ["free"], the result card shows
    "Free", and the detail dialog throws a ReferenceError where it should
    show "Free": its expression reads the price of [item], which is not
    bound there, in place of the selected item's. *)
Theorem detail_price_free_throws :
  let item := JObj [("price", JStr "free")] in
  cardPrice item = Ok (Some (JStr "Free")) /\
  detailPrice item = Raise ReferenceError.
Proof. split; reflexivity. Qed.

End Page.

(** ** The theorems at work on the example worlds *)

Section Witnesses.
Import Examples GreensboroAIChat.

#[local] Existing Instance Sample.host.

Lemma submit_rejected_witness :
  (isLoading blank_input = true \/ blank (input blank_input) = true) /\
  run fine (handleSubmit blank_input) 0 0 blank_input =
  {| outcome := Ok tt; final := blank_input; calls := []; ticks := 0 |}.
Proof.
  assert (isLoading blank_input = true \/ blank (input blank_input) = true) as H
    by (right; reflexivity).
  split; [exact H|].
  exact (@submit_rejected Sample.host fine blank_input 0%nat 0%nat H).
Defined.


Lemma prompt_failure_stops_submission_witness :
  let t := run prompt_down (handleSubmit jazz) 0 0 jazz in
  map fst (calls t) = [prompt_request "jazz"] /\
  exists m, is_error_message m /\
    messages (final t) = [userMessage prompt_down jazz; m].
Proof.
  destruct (@prompt_failure_stops_submission Sample.host prompt_down jazz) as [H _].
  apply (H (Error "Prompt API failed: 503")); reflexivity.
Defined.

Lemma results_payload_is_data_witness :
  let t := run fine (handleSubmit jazz) 0 0 jazz in
  exists a r,
    messages (final t) = [userMessage fine jazz; a; r] /\
    type r = results /\
    data r = Some (JArr [concert; market]) /\
    type a = assistant /\
    content a = summary_text (VInt 2) "jazz".
Proof.
  apply (@results_payload_is_data Sample.host fine jazz descriptor
           (JObj [("data", JArr [concert; market])]) events_url [concert; market]);
    reflexivity.
Defined.

Lemma data_relay_forwards_url_only_witness :
  DataRelay.requested verbose_request = DataRelay.requested plain_request /\
  map fst (calls (serve fine (DataRelay.POST verbose_request))) =
  map fst (calls (serve prompt_down (DataRelay.POST plain_request))).
Proof.
  assert (DataRelay.requested verbose_request = DataRelay.requested plain_request) as H
    by reflexivity.
  split; [exact H|].
  exact (proj2 (@data_relay_forwards_url_only Sample.host fine prompt_down
                  verbose_request plain_request) H).
Defined.

Lemma prompt_relay_malformed_witness :
  outcome (serve garbage (PromptRelay.POST question_request)) =
  Ok {| res_status := 500;
        res_body :=
          JObj [("error", JStr "API returned non-JSON response: <html>")] |}.
Proof.
  destruct (@prompt_relay_malformed Sample.host garbage question_request
              (JObj [("question", JStr "jazz")])
              {| status := 200; body_text := Some "<html>" |}) as [H _];
    [reflexivity | reflexivity |].
  apply (H "<html>"); reflexivity.
Defined.


End Witnesses.

(** * Further properties *)

(** ** Disciplines of the updates *)

Section UpdateLaws.
Context {host : Host}.
Import GreensboroAIChat Discipline.
Variable P : (state -> state) -> Prop.

Lemma updating_bind (A B : Type) (p : proc state A) (f : A -> proc state B) :
  updating P p -> (forall a, updating P (f a)) -> updating P (bind p f).
Proof.
  intros Hp Hf. induction Hp; simpl; try constructor; auto.
Qed.

Lemma updating_try_catch (A : Type) (p : proc state A) (h : exn -> proc state A) :
  updating P p -> (forall e, updating P (h e)) -> updating P (try_catch p h).
Proof.
  intros Hp Hh. induction Hp; simpl; try constructor; auto.
Qed.

Lemma updating_lift (A : Type) (r : result A) : updating P (lift (St:=state) r).
Proof. destruct r; constructor. Qed.

Lemma updating_now : updating P (now (St:=state)).
Proof. constructor. intros t. constructor. Qed.

Lemma updating_setState (f : state -> state) : P f -> updating P (setState f).
Proof. intros H. constructor; [exact H | constructor]. Qed.

Lemma updating_callPromptAPI (q : string) : updating P (callPromptAPI q).
Proof.
  apply updating_bind.
  - constructor. intros [|r]; constructor.
  - intros r. destruct (negb (ok r)); [constructor|].
    destruct (body_text r); simpl; [apply updating_lift | constructor].
Qed.

Lemma updating_callDataAPI (u : option jsonv) : updating P (callDataAPI u).
Proof.
  apply updating_bind.
  - constructor. intros [|r]; constructor.
  - intros r. destruct (negb (ok r)); [constructor|].
    destruct (body_text r); simpl; [apply updating_lift | constructor].
Qed.

(** What [handleSubmit] appends is well formed, so a discipline that admits
    the appending of well-formed messages admits its [try] and [catch]. *)
Hypothesis P_append :
  forall l, Forall well_formed l ->
    P (setMessages (fun prev => (prev ++ l)%list)).

Lemma updating_attempt (q : string) :
  updating P (try_catch (handleSubmit_try q) handleSubmit_catch).
Proof.
  apply updating_try_catch.
  - unfold handleSubmit_try.
    apply updating_bind; [apply updating_callPromptAPI | intros apiResponse].
    apply updating_bind; [apply updating_lift | intros api_url].
    apply updating_bind; [apply updating_callDataAPI | intros dataResponse].
    apply updating_bind; [apply updating_now | intros t3].
    apply updating_bind; [apply updating_lift | intros d].
    apply updating_bind; [apply updating_now | intros t4].
    apply updating_bind; [apply updating_now | intros t5].
    apply updating_bind; [apply updating_now | intros t6].
    apply updating_bind; [apply updating_lift | intros d'].
    apply updating_setState, P_append.
    repeat constructor; unfold well_formed; simpl; try discriminate.
    unfold or_empty. destruct d' as [j|]; [|reflexivity].
    destruct (truthy j) eqn:T; [exact T | reflexivity].
  - intros e. unfold handleSubmit_catch.
    apply updating_bind; [apply updating_now | intros t7].
    apply updating_bind; [apply updating_now | intros t8].
    apply updating_setState, P_append.
    repeat constructor; unfold well_formed; simpl; discriminate.
Qed.

Hypothesis P_setInput : forall v, P (setInput v).
Hypothesis P_setIsLoading : forall b, P (setIsLoading b).

Lemma updating_handleSubmit (s : state) : updating P (handleSubmit s).
Proof.
  unfold handleSubmit.
  destruct (negb (str_truthy (trim (input s))) || isLoading s); [constructor|].
  apply updating_bind; [apply updating_now | intros t1].
  apply updating_bind; [apply updating_now | intros t2].
  apply updating_bind.
  { apply updating_setState, P_append.
    repeat constructor; unfold well_formed; simpl; discriminate. }
  intros _.
  apply updating_bind; [apply updating_setState, P_setInput | intros _].
  apply updating_bind; [apply updating_setState, P_setIsLoading | intros _].
  generalize (updating_attempt (input s)).
  generalize (try_catch (handleSubmit_try (input s)) handleSubmit_catch).
  intros p Hp. induction Hp; simpl; repeat (constructor; auto).
Qed.

End UpdateLaws.

(** ** What every configuration of the page satisfies *)

Section PageInvariants.
Context {host : Host}.
Import GreensboroAIChat Discipline.

Lemma advance_updating (P : (state -> state) -> Prop) (I : state -> Prop)
    (tm : nat -> Z) (p : proc state unit) :
  (forall f, P f -> forall s, I s -> I (f s)) ->
  updating P p ->
  forall tick s, I s ->
    I (fst (advance tm p tick s)) /\
    (forall t, snd (advance tm p tick s) = Some t -> forall o, updating P (snd t o)).
Proof.
  intros HP Hp. induction Hp as [a|e|k Hk IH|rq k Hk IH|f k Hf Hk IH]; intros tick s Hs; simpl.
  - split; [exact Hs | discriminate].
  - split; [exact Hs | discriminate].
  - apply IH, Hs.
  - split; [exact Hs|]. intros t E. injection E as <-. exact Hk.
  - apply IH. now apply HP.
Qed.

Lemma launch_updating (P : (state -> state) -> Prop) (I : state -> Prop)
    (tm : nat -> Z) (p : proc state unit) (c : config) :
  (forall f, P f -> forall s, I s -> I (f s)) ->
  updating P p -> I (ui c) ->
  Forall (fun t : task => forall o, updating P (snd t o)) (inflight c) ->
  I (ui (launch tm p c)) /\
  Forall (fun t : task => forall o, updating P (snd t o)) (inflight (launch tm p c)).
Proof.
  intros HP Hp Hs Hin.
  destruct (advance_updating P I tm p HP Hp 0 (ui c) Hs) as [H1 H2].
  unfold launch. destruct (advance tm p 0 (ui c)) as [s' suspended]; simpl in *.
  split; [exact H1|].
  destruct suspended as [t|]; [|exact Hin].
  constructor; [now apply H2 | exact Hin].
Qed.

(** A property of the state that every update of the page keeps holds in
    every configuration the page reaches. *)
Lemma reachable_updating (P : (state -> state) -> Prop) (I : state -> Prop) :
  (forall f, P f -> forall s, I s -> I (f s)) ->
  (forall l, Forall well_formed l -> P (setMessages (fun prev => (prev ++ l)%list))) ->
  (forall v, P (setInput v)) ->
  (forall b, P (setIsLoading b)) ->
  (forall v, P (setSelectedItem v)) ->
  P (setShowWelcome false) ->
  (forall t, P (setMessages (fun _ => [greeting t]))) ->
  I initial ->
  forall c, reachable c ->
    I (ui c) /\ Forall (fun t : task => forall o, updating P (snd t o)) (inflight c).
Proof.
  intros HP Happend Hinput Hloading Hselect Hwelcome Hgreeting H0 c Hr.
  induction Hr as [|c c' _ [Hs Hin] Hstep].
  - split; [exact H0 | constructor].
  - destruct Hstep as [c tm _|c tm _|c before rq k after o tm Hc|c item _ _|c _|c v _ _].
    + apply launch_updating; auto.
      unfold handleGetStarted.
      apply updating_bind; [now apply updating_setState | intros _].
      apply updating_bind; [apply updating_now | intros t].
      apply updating_setState, Hgreeting.
    + apply launch_updating; auto. now apply updating_handleSubmit.
    + rewrite Hc in Hin. apply Forall_app in Hin as [Hb Ha].
      inversion Ha as [|x l Hk Ha']; subst.
      apply (launch_updating P I tm (k o)
               {| ui := ui c; inflight := (before ++ after)%list |} HP (Hk o) Hs).
      simpl. apply Forall_app. now split.
    + split; [|exact Hin]. simpl. apply (HP _ (Hselect (Some item))), Hs.
    + split; [|exact Hin]. simpl. apply (HP _ (Hselect None)), Hs.
    + split; [|exact Hin]. simpl. apply (HP _ (Hinput v)), Hs.
Qed.

(** X1.  In every configuration the page reaches, a message of the transcript
    holds [data] exactly when it is a results message, and what it holds is
    truthy: no user or assistant message carries a payload and no results
    message lacks one. *)
Theorem transcript_well_formed (c : config) (m : ChatMessage) :
  reachable c -> In m (messages (ui c)) ->
  match data m with
  | Some payload => type m = results /\ truthy payload = true
  | None => type m <> results
  end.
Proof.
  intros Hr Hm.
  destruct (reachable_updating keeps_well_formed
              (fun s => Forall well_formed (messages s))) with (c := c) as [H _];
    try exact Hr; try (intros; intros s Hs; exact Hs).
  - intros f Hf s Hs. now apply Hf.
  - intros l Hl s Hs. simpl. apply Forall_app. now split.
  - intros t s _. simpl. repeat constructor. unfold well_formed; simpl. discriminate.
  - constructor.
  - rewrite Forall_forall in H. apply (H m Hm).
Qed.

(** The welcome screen is the start: every event leads to the chat screen. *)
Lemma step_shows_chat (c c' : config) :
  invariant c -> step c c' -> showWelcome (ui c') = false.
Proof.
  intros [Hw Hin] Hstep.
  destruct Hstep as [c tm Hs|c tm Hs|c before rq k after o tm Hc|c item Hs _|c Hs|c v Hs _];
    try exact Hs.
  - reflexivity.
  - destruct (advance_appending tm (handleSubmit (ui c)) (appending_handleSubmit (ui c))
                0 (ui c) Hs) as [H _].
    unfold launch. now destruct (advance tm (handleSubmit (ui c)) 0 (ui c)).
  - assert (showWelcome (ui c) = false) as Hs.
    { destruct (showWelcome (ui c)); [|reflexivity].
      destruct Hw as [_ Hi]; [reflexivity|]. rewrite Hi in Hc. now destruct before. }
    rewrite Hc in Hin. apply Forall_app in Hin as [_ Ha].
    inversion Ha as [|x l Hk _]; subst.
    destruct (advance_appending tm (k o) (Hk o) 0 (ui c) Hs) as [H _].
    unfold launch; simpl. now destruct (advance tm (k o) 0 (ui c)).
Qed.

(** X2.  The welcome screen is shown in the start configuration only; once an
    event has happened the page shows the chat screen for good. *)
Theorem welcome_only_at_start (c : config) :
  reachable c -> c = start \/ showWelcome (ui c) = false.
Proof.
  intros Hr. destruct Hr as [|c c' Hr Hstep]; [now left | right].
  apply (step_shows_chat c c'); [now apply reachable_invariant | exact Hstep].
Qed.

(** X3.  On the chat screen the transcript always begins with the greeting
    that [handleGetStarted] wrote. *)
Theorem transcript_begins_with_greeting (c : config) :
  reachable c -> showWelcome (ui c) = false ->
  exists t rest, messages (ui c) = greeting t :: rest.
Proof.
  intros Hr. induction Hr as [|c c' Hr IH Hstep]; [discriminate|].
  intros _.
  destruct (showWelcome (ui c)) eqn:Hs.
  - destruct Hstep as [c tm _|c tm E|c before rq k after o tm Hc|c item E _|c E|c v E _];
      try congruence.
    + exists (tm 0%nat), []. reflexivity.
    + destruct (reachable_invariant c Hr) as [Hw _].
      destruct (Hw Hs) as [_ Hi]. rewrite Hi in Hc. now destruct before.
  - destruct (IH eq_refl) as (t & rest & E).
    destruct (step_invariant c c' (reachable_invariant c Hr) Hstep) as [_ [tail Ht]].
    exists t, (rest ++ tail)%list. now rewrite Ht, E.
Qed.

(** *** The loading flag *)

Lemma finishing_try_finally (p : proc state unit) :
  updating keeps_loading p ->
  finishing (try_finally p (setState (setIsLoading false))).
Proof.
  intros Hp. induction Hp as [a|e|k Hk IH|rq k Hk IH|f k Hf Hk IH]; simpl.
  - apply finishing_clear; [reflexivity | constructor].
  - apply finishing_clear; [reflexivity | constructor].
  - now apply finishing_Now.
  - now apply finishing_Await.
  - now apply finishing_keep.
Qed.

Lemma advance_finishing (tm : nat -> Z) (p : proc state unit) :
  finishing p ->
  forall tick s, isLoading s = true ->
    (snd (advance tm p tick s) = None /\ isLoading (fst (advance tm p tick s)) = false) \/
    (isLoading (fst (advance tm p tick s)) = true /\
     exists rq k, snd (advance tm p tick s) = Some (rq, k) /\ forall o, finishing (k o)).
Proof.
  intros Hp. induction Hp as [k Hk IH|rq k Hk IH|f k Hf Hk IH|f k Hf Hk]; intros tick s Hs; simpl.
  - apply IH, Hs.
  - right. split; [exact Hs|]. now exists rq, k.
  - apply IH. now rewrite Hf.
  - left. destruct Hk; simpl; auto.
Qed.

Lemma keeps_loading_attempt (q : string) :
  updating keeps_loading (try_catch (handleSubmit_try q) handleSubmit_catch).
Proof. apply updating_attempt. intros l _ s. reflexivity. Qed.

Lemma advance_handleSubmit (tm : nat -> Z) (s : state) :
  isLoading s = false ->
  (snd (advance tm (handleSubmit s) 0 s) = None /\
   isLoading (fst (advance tm (handleSubmit s) 0 s)) = false) \/
  (isLoading (fst (advance tm (handleSubmit s) 0 s)) = true /\
   exists rq k, snd (advance tm (handleSubmit s) 0 s) = Some (rq, k) /\
                forall o, finishing (k o)).
Proof.
  intros Hl. unfold handleSubmit. rewrite Hl, orb_false_r.
  destruct (negb (str_truthy (trim (input s)))); [left; simpl; auto|].
  cbn -[handleSubmit_try handleSubmit_catch].
  apply advance_finishing; [|reflexivity].
  apply finishing_try_finally, keeps_loading_attempt.
Qed.

Lemma launch_gated (tm : nat -> Z) (p : proc state unit) (s : state) :
  (snd (advance tm p 0 s) = None /\ isLoading (fst (advance tm p 0 s)) = false) \/
  (isLoading (fst (advance tm p 0 s)) = true /\
   exists rq k, snd (advance tm p 0 s) = Some (rq, k) /\ forall o, finishing (k o)) ->
  gated (launch tm p {| ui := s; inflight := [] |}).
Proof.
  unfold launch, gated; simpl.
  destruct (advance tm p 0 s) as [s' suspended]; simpl.
  intros [[-> H]|[H (rq & k & -> & Hk)]]; [left | right]; simpl; eauto.
Qed.

Lemma step_gated (c c' : config) : gated c -> step c c' -> gated c'.
Proof.
  intros G Hstep.
  destruct Hstep as [c tm _|c tm _|c before rq k after o tm Hc|c item _ _|c _|c v _ _];
    try exact G.
  - destruct G as [[Hl Hi]|[Hl G]].
    + destruct c as [s fl]; simpl in *; subst fl.
      apply launch_gated, advance_handleSubmit, Hl.
    + unfold launch, handleSubmit. rewrite Hl, orb_true_r. simpl. now right.
  - destruct G as [[_ Hi]|[Hl (rq0 & k0 & Hi & Hk)]].
    { rewrite Hi in Hc. now destruct before. }
    rewrite Hi in Hc.
    destruct before as [|b before].
    2:{ simpl in Hc. injection Hc as _ Hc. now destruct before. }
    simpl in Hc. injection Hc as <- <- <-. simpl.
    apply launch_gated, advance_finishing; [apply Hk | exact Hl].
Qed.

Lemma reachable_gated (c : config) : reachable c -> gated c.
Proof.
  induction 1 as [|c c' _ IH Hstep]; [now left | now apply (step_gated c c')].
Qed.

(** X4.  In every configuration the page reaches at most one relay call is in
    flight, and the loading flag is set exactly while one is. *)
Theorem one_call_in_flight (c : config) :
  reachable c ->
  (List.length (inflight c) <= 1)%nat /\
  (isLoading (ui c) = true <-> inflight c <> []).
Proof.
  intros Hr. destruct (reachable_gated c Hr) as [[Hl Hi]|[Hl (rq & k & Hi & _)]];
    rewrite Hi, Hl; simpl; split; try lia; split; congruence.
Qed.

(** X5.  While a relay call is in flight a submit event changes nothing: the
    configuration after it is the configuration before it, whatever the
    input field holds. *)
Theorem submit_dropped_in_flight (c : config) (tm : nat -> Z) :
  reachable c -> inflight c <> [] ->
  launch tm (handleSubmit (ui c)) c = c.
Proof.
  intros Hr Hi. destruct (reachable_gated c Hr) as [[_ E]|[Hl _]]; [contradiction|].
  unfold launch, handleSubmit. rewrite Hl, orb_true_r. now destruct c.
Qed.

End PageInvariants.

(** ** One submission, in full *)

Section SubmissionInFull.
Context {host : Host}.
Import GreensboroAIChat Discipline.

Ltac run_next :=
  cbn [Nat.add List.length calls ticks final outcome after ending app lift];
  first [ rewrite run_callPromptAPI
        | rewrite run_callDataAPI
        | rewrite run_bind ].

(** The [try] block when both relays answer, with the messages it writes. *)
Lemma run_try_completed_at (w : world) (q : string) (s1 : state)
    (apiResponse dataResponse : jsonv) (api_url d : option jsonv) :
  prompt_result w q = Ok apiResponse ->
  get apiResponse "api_url" = Ok api_url ->
  data_result w api_url = Ok dataResponse ->
  get dataResponse "data" = Ok d ->
  run w (handleSubmit_try q) 2 0 s1 =
  {| outcome := Ok tt;
     final := setMessages
                (fun prev => (prev ++ [summaryMessage w q d; resultsMessage w d])%list) s1;
     calls := [(prompt_request q, s1); (data_request api_url, s1)]; ticks := 4 |}.
Proof.
  intros H G D N. unfold handleSubmit_try.
  do 2 run_next. cbn [outcome]. rewrite H.
  run_next. rewrite G. cbn [lift run outcome].
  do 2 run_next. cbn [outcome]. rewrite D.
  cbn -[get summary_text or_zero opt_length or_empty]. rewrite N.
  reflexivity.
Qed.

(** The trace of the [try] block when the relays do not answer: it throws
    after at most one clock reading and leaves the state as it was. *)
Lemma run_try_unanswered (w : world) (q : string) (s1 : state) :
  unanswered w q ->
  exists e cs ts,
    (ts <= 1)%nat /\
    run w (handleSubmit_try q) 2 0 s1 =
    {| outcome := Raise e; final := s1; calls := cs; ticks := ts |}.
Proof.
  intros [e H|H|apiResponse api_url e H G D|apiResponse api_url H G D].
  - eexists _, _, 0%nat. split; [lia|].
    apply (run_try_prompt_failed w q 2 s1 e H).
  - eexists _, _, 0%nat. split; [lia|].
    apply (run_try_descriptor_null w q 2 s1 JNull TypeError H). reflexivity.
  - eexists _, _, 0%nat. split; [lia|].
    apply (run_try_data_failed w q 2 s1 _ _ e H G D).
  - eexists _, _, 1%nat. split; [lia|].
    apply (run_try_data_null w q 2 s1 _ JNull _ TypeError H G D). reflexivity.
Qed.

(** The state after a submission that passes the guard. *)
Lemma final_handleSubmit (w : world) (s : state) :
  isLoading s = false -> blank (input s) = false ->
  let t := run w (handleSubmit s) 0 0 s in
  (exists d,
     answered w (input s) d /\
     final t =
     setIsLoading false
       (setMessages
          (fun prev =>
             (prev ++ [summaryMessage w (input s) d; resultsMessage w d])%list)
          (submitted w s)))
  \/
  (exists n,
     unanswered w (input s) /\ (2 <= n <= 3)%nat /\
     final t =
     setIsLoading false
       (setMessages (fun prev => (prev ++ [errorMessage w n])%list) (submitted w s))).
Proof.
  intros Hl Hb. destruct (run_handleSubmit w s Hl Hb) as (_ & Hf & _).
  cbv zeta. rewrite Hf.
  destruct (answered_or_not w (input s)) as [[d A]|U].
  - left. exists d. split; [exact A|].
    destruct A as [apiResponse dataResponse api_url H G D N].
    rewrite (run_try_completed_at w (input s) (submitted w s) _ _ _ _ H G D N).
    reflexivity.
  - right. destruct (run_try_unanswered w (input s) (submitted w s) U)
      as (e & cs & ts & Hts & E).
    exists (2 + ts)%nat. split; [exact U|]. split; [lia|].
    rewrite E. reflexivity.
Qed.

(** X6.  A submission that passes the guard never throws and, however the
    relays answer, ends with the loading flag cleared and the input field
    empty, the selection and the welcome flag being what they were. *)
Theorem submission_completes (w : world) (s : state) :
  isLoading s = false -> blank (input s) = false ->
  let t := run w (handleSubmit s) 0 0 s in
  outcome t = Ok tt /\
  isLoading (final t) = false /\
  input (final t) = EmptyString /\
  selectedItem (final t) = selectedItem s /\
  showWelcome (final t) = showWelcome s.
Proof.
  intros Hl Hb t. split.
  - destruct (run_handleSubmit w s Hl Hb) as (Ho & _ & _). unfold t. rewrite Ho.
    unfold settle.
    destruct (outcome (run w (handleSubmit_try (input s)) 2 0 (submitted w s)));
      reflexivity.
  - destruct (final_handleSubmit w s Hl Hb) as [(d & _ & E)|(n & _ & _ & E)];
      unfold t; rewrite E; simpl; auto.
Qed.

Lemma string_of_Z_inj (x y : Z) : string_of_Z x = string_of_Z y -> x = y.
Proof.
  unfold string_of_Z. intros E.
  assert (forall z, NilZero.int_of_string (NilZero.string_of_int (Z.to_int z))
                    = Some (Z.to_int z)) as R.
  { intros z. apply NilZero.isi; destruct z; simpl; try discriminate.
    - intros [= E']. now destruct (DecimalPos.Unsigned.to_uint_nonnil p).
    - intros [= E']. now destruct (DecimalPos.Unsigned.to_uint_nonnil p). }
  apply DecimalZ.to_int_inj.
  apply (f_equal NilZero.int_of_string) in E. rewrite !R in E. congruence.
Qed.

(** X7.  When the clock does not run backwards, the messages that one
    submission appends have pairwise distinct [id]s, the keys under which
    the page renders them. *)
Theorem submission_ids_distinct (w : world) (s : state) :
  (forall n m, (n <= m)%nat -> clock w n <= clock w m) ->
  isLoading s = false -> blank (input s) = false ->
  exists appended,
    messages (final (run w (handleSubmit s) 0 0 s)) = (messages s ++ appended)%list /\
    NoDup (map id appended).
Proof.
  intros Hclock Hl Hb.
  destruct (final_handleSubmit w s Hl Hb) as [(d & _ & E)|(n & _ & Hn & E)];
    cbv zeta in E; rewrite E; simpl; rewrite <- app_assoc; simpl.
  - eexists. split; [reflexivity|]. simpl.
    assert (clock w 0 <= clock w 2 <= clock w 4) as H
      by (split; apply Hclock; lia).
    repeat constructor; simpl; intros F;
      repeat (destruct F as [F|F]; [apply string_of_Z_inj in F; lia|]); exact F.
  - eexists. split; [reflexivity|]. simpl.
    assert (clock w 0 <= clock w n) as H by (apply Hclock; lia).
    repeat constructor; simpl; intros F;
      repeat (destruct F as [F|F]; [apply string_of_Z_inj in F; lia|]); exact F.
Qed.

(** X8.  When the Prompt Relay's answer holds no [api_url], the Data Relay is
    called all the same, with a body that holds no [apiUrl]. *)
Theorem submit_without_url (w : world) (s : state) (apiResponse : jsonv) :
  isLoading s = false -> blank (input s) = false ->
  prompt_result w (input s) = Ok apiResponse ->
  get apiResponse "api_url" = Ok None ->
  exists rq,
    map fst (calls (run w (handleSubmit s) 0 0 s)) = [prompt_request (input s); rq] /\
    rq_target rq = VJson (JStr "/api/data") /\
    rq_body rq = Some (JSON_stringify (JObj [])).
Proof.
  intros Hl Hb H G. rewrite (submit_calls w s Hl Hb), H, G.
  exists (data_request None). auto.
Qed.

(** X9.  When the Data Relay's answer has no [data], or a falsy one ([null],
    [false], the empty string, a falsy number), the results message carries
    the empty array and the summary states 0. *)
Theorem submit_without_data (w : world) (s : state) (d : option jsonv) :
  isLoading s = false -> blank (input s) = false ->
  answered w (input s) d ->
  (d = None \/ exists j, d = Some j /\ truthy j = false) ->
  exists a r,
    messages (final (run w (handleSubmit s) 0 0 s)) =
      (messages s ++ [userMessage w s; a; r])%list /\
    type a = assistant /\ content a = summary_text (VInt 0) (input s) /\
    type r = results /\ data r = Some (JArr []).
Proof.
  intros Hl Hb A Hd.
  destruct (submit_answered w s d Hl Hb A) as (a & r & Ha & Hr & Hm & _).
  exists a, r. destruct Ha as (Ha1 & Ha2 & _), Hr as (Hr1 & _ & Hr3).
  assert (or_zero (opt_length d) = VInt 0 /\ or_empty d = JArr []) as [E1 E2].
  { destruct Hd as [->|(j & -> & T)]; [split; reflexivity|].
    unfold or_empty. rewrite T. split; [|reflexivity].
    destruct j as [|b|n|str|items|fields]; simpl in *;
      try reflexivity; try discriminate.
    destruct str; [reflexivity | discriminate]. }
  rewrite E1 in Ha2. rewrite E2 in Hr3. auto.
Qed.

(** *** The two calls *)

(** The shape the two calls share. *)
Lemma call_contract (rq : fetch_request) (message : Response -> string)
    (w : world) (tick call : nat) (s : state) (j : jsonv) :
  let t := run w (response <- fetch rq ;;
                  if negb (ok response) then Throw (Error (message response))
                  else json_of_text (body_text response)) tick call s in
  calls t = [(rq, s)] /\
  final t = s /\
  (outcome t = Ok j <->
   exists r body,
     network w call rq = Responded r /\
     200 <= status r /\ status r <= 299 /\
     body_text r = Some body /\ JSON_parse body = Some j).
Proof.
  simpl. destruct (network w call rq) as [|r] eqn:N; simpl.
  { repeat split; try discriminate. intros (r' & t' & E & _). discriminate. }
  unfold ok. destruct ((200 <=? status r) && (status r <=? 299)) eqn:O; simpl.
  2:{ repeat split; try discriminate.
      intros (r' & t' & E & O1 & O2 & _). injection E as <-.
      apply Z.leb_le in O1, O2. rewrite O1, O2 in O. discriminate. }
  apply andb_prop in O as [O1 O2]. apply Z.leb_le in O1, O2.
  unfold json_of_text, parse.
  destruct (body_text r) as [t|] eqn:B; simpl.
  2:{ repeat split; try discriminate.
      intros (r' & t' & E & _ & _ & B' & _). injection E as <-. congruence. }
  destruct (JSON_parse t) as [j'|] eqn:J; simpl.
  - repeat split.
    + intros [= <-]. exists r, t. repeat split; auto.
    + intros (r' & t' & E & _ & _ & B' & J'). injection E as <-. congruence.
  - repeat split; try discriminate.
    intros (r' & t' & E & _ & _ & B' & J'). injection E as <-. congruence.
Qed.

(** X10.  [callPromptAPI] issues one POST to [/api/prompt] whose body is
    [JSON.stringify({ question })], touches no state, and returns the value
    [j] exactly when the call resolves with a status from 200 to 299 and a
    body that parses to [j]; otherwise it throws. *)
Theorem callPromptAPI_contract (w : world) (q : string) (tick call : nat)
    (s : state) (j : jsonv) :
  let t := run w (callPromptAPI q) tick call s in
  calls t = [(prompt_request q, s)] /\
  final t = s /\
  (outcome t = Ok j <->
   exists r body,
     network w call (prompt_request q) = Responded r /\
     200 <= status r /\ status r <= 299 /\
     body_text r = Some body /\ JSON_parse body = Some j).
Proof. apply call_contract. Qed.

(** X11.  [callDataAPI] issues one POST to [/api/data] whose body is
    [JSON.stringify({ apiUrl })], touches no state, and returns the value
    [j] exactly when the call resolves with a status from 200 to 299 and a
    body that parses to [j]; otherwise it throws. *)
Theorem callDataAPI_contract (w : world) (apiUrl : option jsonv) (tick call : nat)
    (s : state) (j : jsonv) :
  let t := run w (callDataAPI apiUrl) tick call s in
  calls t = [(data_request apiUrl, s)] /\
  final t = s /\
  (outcome t = Ok j <->
   exists r body,
     network w call (data_request apiUrl) = Responded r /\
     200 <= status r /\ status r <= 299 /\
     body_text r = Some body /\ JSON_parse body = Some j).
Proof. apply call_contract. Qed.

End SubmissionInFull.

(** ** The relays, anywhere in a run *)

Section RelaysAt.
Context {host : Host}.

(** The Data Relay as the [n]-th caller of its world. *)
Lemma data_relay_at (w : world) (request : NextRequest) (n : nat) :
  run w (DataRelay.POST request) 0 n tt =
  let failed := NextResponse_json (error_body "Failed to fetch data API") 500 in
  match DataRelay.requested request with
  | Raise _ => {| outcome := Ok failed; final := tt; calls := []; ticks := 0 |}
  | Ok apiUrl =>
      {| outcome :=
           Ok match network w n (DataRelay.forwarded apiUrl) with
              | Rejected => failed
              | Responded r =>
                  if ok r then
                    match body_text r with
                    | Some t =>
                        match JSON_parse t with
                        | Some data => NextResponse_json data 200
                        | None => failed
                        end
                    | None => failed
                    end
                  else failed
              end;
         final := tt; calls := [(DataRelay.forwarded apiUrl, tt)]; ticks := 0 |}
  end.
Proof.
  unfold DataRelay.requested, DataRelay.POST, request_json, json_of_text.
  destruct (parse (req_body request)) as [body|e]; simpl; [|reflexivity].
  destruct (get body "apiUrl") as [apiUrl|e]; simpl; [|reflexivity].
  destruct (network w n (DataRelay.forwarded apiUrl)) as [|r]; simpl; [reflexivity|].
  destruct (ok r); simpl; [|reflexivity].
  unfold parse. destruct (body_text r) as [t|]; simpl; [|reflexivity].
  destruct (JSON_parse t); reflexivity.
Qed.

(** The Prompt Relay as the [n]-th caller of its world. *)
Lemma prompt_relay_at (w : world) (request : NextRequest) (n : nat) :
  run w (PromptRelay.POST request) 0 n tt =
  let failed := NextResponse_json (error_body "Failed to fetch prompt API") 500 in
  match parse (req_body request) with
  | Raise _ => {| outcome := Ok failed; final := tt; calls := []; ticks := 0 |}
  | Ok body =>
      {| outcome :=
           Ok match network w n (PromptRelay.forwarded body) with
              | Rejected => failed
              | Responded r =>
                  if ok r then
                    match body_text r with
                    | Some t =>
                        match JSON_parse t with
                        | Some data => NextResponse_json data 200
                        | None =>
                            NextResponse_json
                              (error_body ("API returned non-JSON response: " ++ t)) 500
                        end
                    | None => failed
                    end
                  else failed
              end;
         final := tt; calls := [(PromptRelay.forwarded body, tt)]; ticks := 0 |}
  end.
Proof.
  unfold PromptRelay.POST, request_json, json_of_text.
  destruct (parse (req_body request)) as [body|e]; simpl; [|reflexivity].
  destruct (network w n (PromptRelay.forwarded body)) as [|r]; simpl; [reflexivity|].
  destruct (ok r); simpl; [|reflexivity].
  unfold text, parse. destruct (body_text r) as [t|]; simpl; [|reflexivity].
  destruct (JSON_parse t); reflexivity.
Qed.

(** X12.  When the upstream of the Data Relay answers with a success status
    and a body that parses, the relay responds with that value unchanged
    and status 200, whichever success status the upstream chose. *)
Theorem data_relay_passes_through (w : world) (request : NextRequest)
    (apiUrl : option jsonv) (r : Response) (t : string) (data : jsonv) :
  DataRelay.requested request = Ok apiUrl ->
  network w 0 (DataRelay.forwarded apiUrl) = Responded r ->
  ok r = true -> body_text r = Some t -> JSON_parse t = Some data ->
  outcome (serve w (DataRelay.POST request)) = Ok (NextResponse_json data 200).
Proof.
  intros R N O B J. unfold serve. rewrite data_relay_at, R. simpl.
  now rewrite N, O, B, J.
Qed.

(** X13.  When the upstream of the Prompt Relay answers with a success status
    and a body that parses, the relay responds with that value unchanged
    and status 200; it looks for no [api_url] or [intent] in it. *)
Theorem prompt_relay_passes_through (w : world) (request : NextRequest)
    (body : jsonv) (r : Response) (t : string) (data : jsonv) :
  parse (req_body request) = Ok body ->
  network w 0 (PromptRelay.forwarded body) = Responded r ->
  ok r = true -> body_text r = Some t -> JSON_parse t = Some data ->
  outcome (serve w (PromptRelay.POST request)) = Ok (NextResponse_json data 200).
Proof.
  intros R N O B J. unfold serve. rewrite prompt_relay_at, R. simpl.
  now rewrite N, O, B, J.
Qed.

(** X14.  Every response of the Data Relay with status 500 is the same
    response: it tells nothing of why the relay failed, neither the status
    nor the body of the upstream. *)
Theorem data_relay_failure_is_constant (w : world) (request : NextRequest)
    (response : NextResponse) :
  outcome (serve w (DataRelay.POST request)) = Ok response ->
  res_status response = 500 ->
  response = NextResponse_json (error_body "Failed to fetch data API") 500.
Proof.
  unfold serve. rewrite data_relay_at. simpl.
  destruct (DataRelay.requested request) as [apiUrl|e]; simpl.
  2:{ now intros [= <-]. }
  destruct (network w 0 (DataRelay.forwarded apiUrl)) as [|r]; [now intros [= <-]|].
  destruct (ok r); [|now intros [= <-]].
  destruct (body_text r) as [t|]; [|now intros [= <-]].
  destruct (JSON_parse t) as [data|]; [|now intros [= <-]].
  intros [= <-]. discriminate.
Qed.

(** X15.  The Prompt Relay issues one call for a request whose body parses,
    to its fixed upstream and with the whole body written back by
    [JSON.stringify], and no call for a body that does not parse. *)
Theorem prompt_relay_forwards_body (w : world) (request : NextRequest) :
  map fst (calls (serve w (PromptRelay.POST request))) =
  match parse (req_body request) with
  | Ok body =>
      [ {| rq_target := VJson (JStr "http://3.95.246.95:5000/params");
           rq_method := "POST";
           rq_headers := [("Content-Type", "application/json")];
           rq_body := Some (JSON_stringify body) |} ]
  | Raise _ => []
  end.
Proof.
  unfold serve. rewrite prompt_relay_at. simpl.
  now destruct (parse (req_body request)).
Qed.

(** X16.  A request to the Data Relay whose body parses to something other
    than [null] but holds no [apiUrl] still makes the relay call [fetch],
    with [undefined] for the URL. *)
Theorem data_relay_without_url (w : world) (request : NextRequest) :
  DataRelay.requested request = Ok None ->
  exists rq,
    map fst (calls (serve w (DataRelay.POST request))) = [rq] /\
    rq_target rq = VUndefined /\ rq_body rq = None.
Proof.
  intros R. unfold serve. rewrite data_relay_at, R. simpl.
  eexists. split; [reflexivity|]. split; reflexivity.
Qed.

End RelaysAt.

(** ** The tags of an item *)

Section TagLaws.
Context {host : Host}.
Import Tags.

Lemma each_firstn (A B : Type) (f : A -> result B) (n : nat) :
  forall items ys,
    each f items = Ok ys -> each f (firstn n items) = Ok (firstn n ys).
Proof.
  induction n as [|n IH]; intros items ys; [reflexivity|].
  destruct items as [|x rest]; simpl.
  - now intros [= <-].
  - destruct (f x) as [y|e]; simpl; [|discriminate].
    destruct (each f rest) as [ys'|e] eqn:E; simpl; [|discriminate].
    intros [= <-]. simpl. now rewrite (IH rest ys' E).
Qed.

Lemma each_length (A B : Type) (f : A -> result B) :
  forall items ys, each f items = Ok ys -> List.length ys = List.length items.
Proof.
  induction items as [|x rest IH]; simpl; intros ys.
  - now intros [= <-].
  - destruct (f x) as [y|e]; simpl; [|discriminate].
    destruct (each f rest) as [ys'|e]; simpl; [|discriminate].
    intros [= <-]. simpl. now rewrite (IH ys').
Qed.

Lemma first_two_of_all (v : option jsonv) (name : string) (ys : list (option jsonv)) :
  all_of v name = Ok ys -> first_two v name = Ok (firstn 2 ys).
Proof.
  unfold all_of, first_two.
  destruct v as [[|b|n|s|items|fields]|]; try discriminate;
    try (now intros [= <-]).
  apply each_firstn.
Qed.

Lemma first_two_length (v : option jsonv) (name : string) (ys : list (option jsonv)) :
  first_two v name = Ok ys -> (List.length ys <= 2)%nat.
Proof.
  unfold first_two.
  destruct v as [[|b|n|s|items|fields]|]; try discriminate;
    try (intros [= <-]; simpl; lia).
  intros E. apply each_length in E. rewrite E. rewrite length_firstn. lia.
Qed.

End TagLaws.

Section TagTheorems.
Context {host : Host}.
Import Tags.

(** X17.  Whenever the detail dialog renders the tags of an item, the result
    card of that item renders the first two of its category badges and the
    first two of its attraction-type badges, in the same order. *)
Theorem card_tags_are_first_two (item : jsonv) (cs ts : list (option jsonv)) :
  detailTags item = Ok (cs, ts) ->
  cardTags item = Ok (firstn 2 cs, firstn 2 ts).
Proof.
  unfold detailTags, cardTags.
  destruct (GreensboroAIChat.detailPrice item) as [price|e]; simpl; [|discriminate].
  destruct (get item "eventItemCategories") as [categories|e]; simpl; [|discriminate].
  destruct (all_of categories "category_name") as [cs'|e] eqn:C; simpl; [|discriminate].
  rewrite (first_two_of_all _ _ _ C); simpl.
  destruct (get item "attractionTypes") as [types|e]; simpl; [|discriminate].
  destruct (all_of types "attraction_type") as [ts'|e] eqn:T; simpl; [|discriminate].
  rewrite (first_two_of_all _ _ _ T); simpl.
  now intros [= <- <-].
Qed.

(** X18.  A result card never shows more than two category badges and two
    attraction-type badges. *)
Theorem card_tags_at_most_two (item : jsonv) (cs ts : list (option jsonv)) :
  cardTags item = Ok (cs, ts) ->
  (List.length cs <= 2)%nat /\ (List.length ts <= 2)%nat.
Proof.
  unfold cardTags.
  destruct (get item "eventItemCategories") as [categories|e]; simpl; [|discriminate].
  destruct (first_two categories "category_name") as [cs'|e] eqn:C; simpl; [|discriminate].
  destruct (get item "attractionTypes") as [types|e]; simpl; [|discriminate].
  destruct (first_two types "attraction_type") as [ts'|e] eqn:T; simpl; [|discriminate].
  intros [= <- <-]. split; eapply first_two_length; eauto.
Qed.

End TagTheorems.

(** ** The page over its relays *)

Section EndToEnd.
Context {host : Host}.
Import GreensboroAIChat App.

Lemma prompt_result_served (up : world) (q : string) :
  prompt_result (served up) q =
  match deliver (outcome (run up (PromptRelay.POST (incoming (prompt_request q))) 0 0 tt)) with
  | Rejected => Raise NetworkError
  | Responded r =>
      if ok r then
        match body_text r with
        | Some t => parse t
        | None => Raise NetworkError
        end
      else Raise (Error ("Prompt API failed: " ++ string_of_Z (status r)))
  end.
Proof.
  unfold prompt_result, callPromptAPI, fetch.
  cbn -[PromptRelay.POST incoming deliver ok string_of_Z].
  destruct (deliver _) as [|r]; [reflexivity|].
  cbn -[ok string_of_Z]. destruct (ok r); [|reflexivity].
  cbn. destruct (body_text r) as [t|]; [|reflexivity].
  cbn. now destruct (parse t).
Qed.

Lemma data_result_served (up : world) (u : option jsonv) :
  data_result (served up) u =
  match deliver (outcome (run up (DataRelay.POST (incoming (data_request u))) 0 1 tt)) with
  | Rejected => Raise NetworkError
  | Responded r =>
      if ok r then
        match body_text r with
        | Some t => parse t
        | None => Raise NetworkError
        end
      else Raise (Error ("Data API failed: " ++ string_of_Z (status r)))
  end.
Proof.
  unfold data_result, callDataAPI, fetch.
  cbn -[DataRelay.POST incoming deliver ok string_of_Z].
  destruct (deliver _) as [|r]; [reflexivity|].
  cbn -[ok string_of_Z]. destruct (ok r); [|reflexivity].
  cbn. destruct (body_text r) as [t|]; [|reflexivity].
  cbn. now destruct (parse t).
Qed.

(** X19.  The page, its relays and the two upstream services together.  When
    the natural-language service answers the forwarded question with a
    success status and a descriptor that names the URL [u], and the data
    service answers the POST to [u] with a success status and a body whose
    [data] is an array, then the results message of the submission carries
    that array; the values that cross the relays are taken to survive
    [JSON.stringify] and [JSON.parse]. *)
Theorem end_to_end_results (up : world) (s : state)
    (r1 r2 : Response) (t1 t2 : string)
    (apiResponse dataResponse u : jsonv) (items : list jsonv) :
  isLoading s = false -> blank (input s) = false ->
  survives (JObj [("question", JStr (input s))]) ->
  network up 0 (PromptRelay.forwarded (JObj [("question", JStr (input s))])) = Responded r1 ->
  ok r1 = true -> body_text r1 = Some t1 -> JSON_parse t1 = Some apiResponse ->
  survives apiResponse ->
  get apiResponse "api_url" = Ok (Some u) ->
  survives (JObj [("apiUrl", u)]) ->
  network up 1 (DataRelay.forwarded (Some u)) = Responded r2 ->
  ok r2 = true -> body_text r2 = Some t2 -> JSON_parse t2 = Some dataResponse ->
  survives dataResponse ->
  get dataResponse "data" = Ok (Some (JArr items)) ->
  exists a r,
    messages (final (run (served up) (handleSubmit s) 0 0 s)) =
      (messages s ++ [userMessage (served up) s; a; r])%list /\
    type r = results /\ data r = Some (JArr items).
Proof.
  intros Hl Hb Sq N1 O1 B1 J1 Sa G Su N2 O2 B2 J2 Sd D.
  assert (prompt_result (served up) (input s) = Ok apiResponse) as HP.
  { rewrite prompt_result_served, prompt_relay_at.
    unfold incoming; cbn [prompt_request rq_body req_body]. unfold parse at 1.
    rewrite Sq. cbn [outcome]. rewrite N1, O1, B1, J1.
    cbn [deliver NextResponse_json res_status res_body]. cbn [ok status].
    cbn [body_text]. unfold parse. now rewrite Sa. }
  assert (data_result (served up) (Some u) = Ok dataResponse) as HD.
  { rewrite data_result_served, data_relay_at.
    unfold DataRelay.requested, incoming; cbn [data_request rq_body req_body].
    unfold parse at 1. rewrite Su. cbn [and_then get lookup String.eqb Ascii.eqb Bool.eqb].
    cbn [outcome]. rewrite N2, O2, B2, J2.
    cbn [deliver NextResponse_json res_status res_body]. cbn [ok status].
    cbn [body_text]. unfold parse. now rewrite Sd. }
  destruct (submit_answered (served up) s (Some (JArr items)) Hl Hb) as (a & r & _ & Hr & Hm & _).
  { now apply answered_both with apiResponse dataResponse (Some u). }
  exists a, r. destruct Hr as (Hr1 & _ & Hr3). auto.
Qed.

(** X20.  The page and its Prompt Relay together.  Whenever the relay answers
    the question of a submission with status 500, whatever made it fail,
    the transcript receives the user message and one generic error message,
    and the Data Relay is not called. *)
Theorem end_to_end_failure (up : world) (s : state) (response : NextResponse) :
  isLoading s = false -> blank (input s) = false ->
  outcome (serve up (PromptRelay.POST (incoming (prompt_request (input s))))) = Ok response ->
  res_status response = 500 ->
  let t := run (served up) (handleSubmit s) 0 0 s in
  map fst (calls t) = [prompt_request (input s)] /\
  exists m, is_error_message m /\
    messages (final t) = (messages s ++ [userMessage (served up) s; m])%list.
Proof.
  intros Hl Hb Ho Hs t.
  assert (prompt_result (served up) (input s) = Raise (Error "Prompt API failed: 500")) as HP.
  { rewrite prompt_result_served. unfold serve in Ho. rewrite Ho.
    cbn [deliver]. rewrite Hs. reflexivity. }
  split.
  - unfold t. rewrite (submit_calls (served up) s Hl Hb), HP. reflexivity.
  - apply (submit_unanswered (served up) s Hl Hb). now apply prompt_call_fails with (1 := HP).
Qed.

End EndToEnd.

(** ** The price on a result card *)

Section CardPrice.
Context {host : Host}.
Import GreensboroAIChat.

(** X21.  For an item whose stored price is the string [p], the result card
    shows "Free" exactly when [p] is "0", "free" or already "Free", the
    comparison being case-sensitive, and shows [p] itself whenever [p] is
    neither "0" nor "free". *)
Theorem card_price_rule (item : jsonv) (p : string) :
  get item "price" = Ok (Some (JStr p)) ->
  (cardPrice item = Ok (Some (JStr "Free")) <->
   p = "0" \/ p = "free" \/ p = "Free") /\
  (p <> "0" -> p <> "free" -> cardPrice item = Ok (Some (JStr p))).
Proof.
  intros H. rewrite (cardPrice_string item p H).
  destruct (String.eqb_spec p "0") as [->|N0]; simpl.
  { split; [split; auto | congruence]. }
  destruct (String.eqb_spec p "free") as [->|N1]; simpl.
  { split; [split; auto | congruence]. }
  split; [|reflexivity]. split.
  - intros [= ->]. auto.
  - intros [E|[E|E]]; congruence.
Qed.

End CardPrice.

(** ** Controls and images *)

Section ControlLaws.
Context {host : Host}.
Import GreensboroAIChat Controls.

(** X22.  The submit button is disabled exactly when a submit event would be
    turned away: while it is disabled a submission changes nothing and calls
    nothing, and while it is enabled a submission issues the Prompt Relay
    call with the user message already in the transcript. *)
Theorem submit_button_matches_guard (w : world) (s : state) :
  (submitDisabled s = true ->
   run w (handleSubmit s) 0 0 s =
   {| outcome := Ok tt; final := s; calls := []; ticks := 0 |}) /\
  (submitDisabled s = false ->
   exists rest,
     calls (run w (handleSubmit s) 0 0 s) =
     (prompt_request (input s), submitted w s) :: rest).
Proof.
  unfold submitDisabled. split; intros H.
  - unfold handleSubmit. now rewrite H.
  - apply orb_false_elim in H as [Ht Hl].
    assert (blank (input s) = false) as Hb.
    { destruct (blank (input s)) eqn:B; [|reflexivity].
      apply trim_blank in B. rewrite B in Ht. discriminate. }
    eexists. apply (submit_calls w s Hl Hb).
Qed.

(** X23.  The source of an item's image is never falsy: it is the stored
    [listing_image] when that is truthy, and the placeholder when the item
    has none or an empty one. *)
Theorem image_source_never_empty (item src : jsonv) :
  imageSrc item = Ok src ->
  truthy src = true /\
  (forall image, get item "listing_image" = Ok (Some image) ->
     truthy image = true -> src = image) /\
  (get item "listing_image" = Ok None \/
   get item "listing_image" = Ok (Some (JStr EmptyString)) ->
   src = JStr "/placeholder.svg").
Proof.
  unfold imageSrc.
  destruct (get item "listing_image") as [[image|]|e]; simpl; try discriminate.
  - destruct (truthy image) eqn:T; intros [= <-].
    + split; [exact T|]. split.
      * now intros image' [= <-].
      * intros [E|[= ->]]; discriminate.
    + split; [reflexivity|]. split.
      * intros image' [= <-]. congruence.
      * reflexivity.
  - intros [= <-]. split; [reflexivity|]. split; [discriminate | reflexivity].
Qed.

End ControlLaws.

(** ** The relays over an upstream that may never answer *)

Section OpenRelays.
Context {host : Host}.

(** Where every fetch settles, the open run is the run. *)
Lemma run_open_settled (St A : Type) (w : world) (p : proc St A) :
  forall tick call s,
    run_open (settled w) p tick call s = Some (run w p tick call s).
Proof.
  induction p as [a|e|k IH|rq k IH|f k IH]; intros tick call s; simpl;
    try reflexivity.
  - now rewrite IH.
  - now rewrite IH.
  - apply IH.
Qed.

(** A handler that awaits a fetch which never settles never comes back. *)
Lemma run_open_pending (St A : Type) (w : open_world) (rq : fetch_request)
    (k : fetch_outcome -> proc St A) (tick call : nat) (s : St) :
  open_network w call rq = None ->
  run_open w (Await rq k) tick call s = None.
Proof. intros H. simpl. now rewrite H. Qed.


End OpenRelays.

(** ** The further properties on the example worlds *)

Section MoreWitnesses.
Import Examples Scenarios Walk GreensboroAIChat Discipline Tags App.
#[local] Existing Instance Sample.host.

Lemma reachable_chat : reachable chat.
Proof.
  apply reachable_step with (c := start); [apply reachable_start|].
  apply step_getStarted. reflexivity.
Qed.

Lemma reachable_waiting : reachable waiting.
Proof.
  apply reachable_step with (c := typed).
  - apply reachable_step with (c := chat); [apply reachable_chat|].
    apply (step_setInput chat "jazz"); reflexivity.
  - apply step_submit. reflexivity.
Qed.

Lemma welcome_only_at_start_witness :
  chat = start \/ showWelcome (ui chat) = false.
Proof.
  apply (@welcome_only_at_start Sample.host chat). apply reachable_chat.
Defined.

Lemma transcript_begins_with_greeting_witness :
  exists t rest, messages (ui waiting) = greeting t :: rest.
Proof.
  apply (@transcript_begins_with_greeting Sample.host waiting).
  - apply reachable_waiting.
  - reflexivity.
Defined.

Lemma one_call_in_flight_witness :
  (List.length (inflight waiting) <= 1)%nat /\
  (isLoading (ui waiting) = true <-> inflight waiting <> []).
Proof.
  apply (@one_call_in_flight Sample.host waiting). apply reachable_waiting.
Defined.

Lemma submit_dropped_in_flight_witness :
  launch (clock fine) (handleSubmit (ui waiting)) waiting = waiting.
Proof.
  apply (@submit_dropped_in_flight Sample.host waiting (clock fine)).
  - apply reachable_waiting.
  - discriminate.
Defined.

Lemma submission_completes_witness :
  let t := run prompt_down (handleSubmit jazz) 0 0 jazz in
  outcome t = Ok tt /\
  isLoading (final t) = false /\
  input (final t) = EmptyString /\
  selectedItem (final t) = selectedItem jazz /\
  showWelcome (final t) = showWelcome jazz.
Proof.
  apply (@submission_completes Sample.host prompt_down jazz); reflexivity.
Defined.

Lemma submission_ids_distinct_witness :
  exists appended,
    messages (final (run fine (handleSubmit jazz) 0 0 jazz)) =
      (messages jazz ++ appended)%list /\
    NoDup (map id appended).
Proof.
  apply (@submission_ids_distinct Sample.host fine jazz).
  - intros n m H. unfold fine, world_of, clock. lia.
  - reflexivity.
  - reflexivity.
Defined.

Lemma submit_without_url_witness :
  exists rq,
    map fst (calls (run no_url (handleSubmit jazz) 0 0 jazz)) = [prompt_request "jazz"; rq] /\
    rq_target rq = VJson (JStr "/api/data") /\
    rq_body rq = Some "{}".
Proof.
  apply (@submit_without_url Sample.host no_url jazz (JObj [])); reflexivity.
Defined.

Lemma submit_without_data_witness :
  exists a r,
    messages (final (run no_data (handleSubmit jazz) 0 0 jazz)) =
      [userMessage no_data jazz; a; r] /\
    type a = assistant /\ content a = summary_text (VInt 0) "jazz" /\
    type r = results /\ data r = Some (JArr []).
Proof.
  apply (@submit_without_data Sample.host no_data jazz None).
  - reflexivity.
  - reflexivity.
  - apply answered_both with descriptor (JObj []) events_url; reflexivity.
  - left. reflexivity.
Defined.

Lemma data_relay_passes_through_witness :
  outcome (serve data_upstream (DataRelay.POST data_fetch)) =
  Ok (NextResponse_json (JObj [("data", JArr [concert; market])]) 200).
Proof.
  apply (@data_relay_passes_through Sample.host data_upstream data_fetch events_url
           {| status := 201; body_text := Some records_text |} records_text);
    reflexivity.
Defined.

Lemma prompt_relay_passes_through_witness :
  outcome (serve prompt_upstream (PromptRelay.POST question_request)) =
  Ok (NextResponse_json descriptor 200).
Proof.
  apply (@prompt_relay_passes_through Sample.host prompt_upstream question_request
           (JObj [("question", JStr "jazz")])
           {| status := 200; body_text := Some descriptor_text |} descriptor_text);
    reflexivity.
Defined.

Lemma data_relay_failure_is_constant_witness :
  exists response,
    outcome (serve upstream_down (DataRelay.POST data_fetch)) = Ok response /\
    res_status response = 500 /\
    response = NextResponse_json (error_body "Failed to fetch data API") 500.
Proof.
  eexists. split; [reflexivity|]. split; [reflexivity|].
  apply (@data_relay_failure_is_constant Sample.host upstream_down data_fetch);
    reflexivity.
Defined.

Lemma data_relay_without_url_witness :
  exists rq,
    map fst (calls (serve data_upstream (DataRelay.POST empty_fetch))) = [rq] /\
    rq_target rq = VUndefined /\ rq_body rq = None.
Proof.
  apply (@data_relay_without_url Sample.host data_upstream empty_fetch). reflexivity.
Defined.

Lemma card_tags_at_most_two_witness :
  exists cs ts,
    cardTags tagged = Ok (cs, ts) /\
    (List.length cs <= 2)%nat /\ (List.length ts <= 2)%nat.
Proof.
  eexists _, _. split; [reflexivity|].
  apply (@card_tags_at_most_two Sample.host tagged
           [Some (JStr "Music"); Some (JStr "Outdoors")] [Some (JStr "Park")]).
  reflexivity.
Defined.

Lemma end_to_end_results_witness :
  exists a r,
    messages (final (run (served upstream_fine) (handleSubmit jazz) 0 0 jazz)) =
      [userMessage (served upstream_fine) jazz; a; r] /\
    type r = results /\ data r = Some (JArr [concert; market]).
Proof.
  apply (@end_to_end_results Sample.host upstream_fine jazz
           {| status := 200; body_text := Some descriptor_text |}
           {| status := 201; body_text := Some records_text |}
           descriptor_text records_text
           descriptor (JObj [("data", JArr [concert; market])])
           (JStr "http://data.example/events") [concert; market]);
    reflexivity.
Defined.

Lemma end_to_end_failure_witness :
  let t := run (served upstream_down) (handleSubmit jazz) 0 0 jazz in
  map fst (calls t) = [prompt_request "jazz"] /\
  exists m, is_error_message m /\
    messages (final t) = [userMessage (served upstream_down) jazz; m].
Proof.
  apply (@end_to_end_failure Sample.host upstream_down jazz
           (NextResponse_json (error_body "Failed to fetch prompt API") 500));
    reflexivity.
Defined.

Lemma card_price_rule_witness :
  (cardPrice concert = Ok (Some (JStr "Free")) <->
   "free" = "0" \/ "free" = "free" \/ "free" = "Free") /\
  ("free" <> "0" -> "free" <> "free" -> cardPrice concert = Ok (Some (JStr "free"))).
Proof.
  apply (@card_price_rule Sample.host concert "free"). reflexivity.
Defined.

Lemma submit_button_matches_guard_witness :
  Controls.submitDisabled blank_input = true /\
  run fine (handleSubmit blank_input) 0 0 blank_input =
  {| outcome := Ok tt; final := blank_input; calls := []; ticks := 0 |}.
Proof.
  split; [reflexivity|].
  apply (proj1 (@submit_button_matches_guard Sample.host fine blank_input)).
  reflexivity.
Defined.

Lemma image_source_never_empty_witness :
  Controls.imageSrc concert = Ok (JStr "/placeholder.svg") /\
  truthy (JStr "/placeholder.svg") = true.
Proof.
  split; [reflexivity|].
  apply (@image_source_never_empty Sample.host concert (JStr "/placeholder.svg")).
  reflexivity.
Defined.


Lemma reachable_typed : reachable typed.
Proof.
  apply reachable_step with (c := chat); [apply reachable_chat|].
  apply (step_setInput chat "jazz"); reflexivity.
Qed.

Lemma reachable_shown : reachable shown.
Proof.
  apply (submission_reachable fine typed); [apply reachable_typed | reflexivity].
Qed.

Lemma shown_results_in : In shown_results (messages (ui shown)).
Proof. apply nth_error_In with (n := 3%nat). reflexivity. Qed.

Lemma shown_has_card : has_card (ui shown) concert.
Proof.
  exists shown_results, [concert; market].
  split; [apply shown_results_in|].
  split; [reflexivity|]. split; [reflexivity|]. left. reflexivity.
Qed.

Lemma reachable_picked : reachable picked.
Proof.
  apply reachable_step with (c := shown); [apply reachable_shown|].
  apply (@step_select Sample.host shown concert); [reflexivity | apply shown_has_card].
Qed.

Lemma step_waiting_refused : step waiting refused.
Proof.
  apply (step_settle waiting [] (fst waiting_task) (snd waiting_task) []
           (respond 503 "Service Unavailable") (clock prompt_down)).
  reflexivity.
Qed.



Lemma selection_at_most_one_witness :
  reachable picked /\
  has_card (ui shown) concert /\
  selection (ui picked) = [concert] /\
  selectedItem (select concert (ui shown)) = Some concert /\
  selectedItem (select market (select concert (ui shown))) = Some market /\
  selectedItem (deselect (select concert (ui shown))) = None /\
  (List.length (selection (ui picked)) <= 1)%nat.
Proof.
  destruct (@selection_at_most_one Sample.host (ui shown) concert market)
    as (Hx & Hy & Hn & Hall).
  split; [apply reachable_picked|].
  split; [apply shown_has_card|].
  split; [reflexivity|].
  split; [exact Hx|]. split; [exact Hy|]. split; [exact Hn|].
  apply (Hall picked). apply reachable_picked.
Defined.

Lemma transcript_append_only_witness :
  map type (messages (ui waiting)) = [assistant; user] /\
  map type (messages (ui refused)) = [assistant; user; assistant] /\
  exists tail, messages (ui refused) = (messages (ui waiting) ++ tail)%list.
Proof.
  split; [reflexivity|]. split; [reflexivity|].
  apply (@transcript_append_only Sample.host waiting refused).
  - apply reachable_waiting.
  - apply step_waiting_refused.
Defined.

Lemma transcript_well_formed_witness :
  In shown_results (messages (ui shown)) /\
  data shown_results = Some (JArr [concert; market]) /\
  type shown_results = results /\
  truthy (JArr [concert; market]) = true.
Proof.
  assert (In shown_results (messages (ui shown))) as Hin
    by apply shown_results_in.
  split; [exact Hin|]. split; [reflexivity|].
  exact (@transcript_well_formed Sample.host shown shown_results reachable_shown Hin).
Defined.

Lemma card_tags_are_first_two_witness :
  detailTags tagged_free =
    Ok ([Some (JStr "Music"); Some (JStr "Outdoors"); Some (JStr "Family")],
        [Some (JStr "Park")]) /\
  cardTags tagged_free =
    Ok ([Some (JStr "Music"); Some (JStr "Outdoors")], [Some (JStr "Park")]).
Proof.
  split; [reflexivity|].
  apply (@card_tags_are_first_two Sample.host tagged_free
           [Some (JStr "Music"); Some (JStr "Outdoors"); Some (JStr "Family")]
           [Some (JStr "Park")]).
  reflexivity.
Defined.

End MoreWitnesses.
